(** * geo.utils: splitting and merging arrays and datasets

    A shallow embedding of the chunking helpers of [geo/utils/__init__.py]
    ([chunks], [block_split], [block_merge], [xr_split], [xr_merge],
    [parallel]) together with the fragment of Python, numpy and xarray
    they rely on, followed by the properties established about them. *)

From Stdlib Require Import String ZArith Lia Bool Arith PeanoNat List.
From Stdlib Require DecimalString ListDec.
Import ListNotations.

Local Open Scope string_scope.
Local Open Scope Z_scope.

(** ** Python: exceptions, slices, ranges *)

Module Py.

Inductive exn : Type :=
| ValueError (msg : string)
| KeyError (key : string)
| IndexError (msg : string)
| ZeroDivisionError.

(** The outcome of evaluating an expression: a value or a raised
    exception. *)
Inductive res (A : Type) : Type :=
| Ok (a : A)
| Raise (e : exn).
Arguments Ok {A} a.
Arguments Raise {A} e.

Definition bind {A B} (c : res A) (k : A -> res B) : res B :=
  match c with
  | Ok a => k a
  | Raise e => Raise e
  end.

(** A comprehension whose body may raise: elements are evaluated from
    left to right and the first exception wins. *)
Fixpoint mapM {A B} (f : A -> res B) (l : list A) : res (list B) :=
  match l with
  | [] => Ok []
  | x :: r =>
      match f x with
      | Raise e => Raise e
      | Ok y =>
          match mapM f r with
          | Raise e => Raise e
          | Ok ys => Ok (y :: ys)
          end
      end
  end.

(** A [for] loop that rebinds one variable ([acc]) on every turn. *)
Fixpoint foldM {A B} (body : B -> A -> res B) (l : list A) (acc : B)
  : res B :=
  match l with
  | [] => Ok acc
  | x :: r =>
      match body acc x with
      | Raise e => Raise e
      | Ok acc' => foldM body r acc'
      end
  end.

Definition enumerate {A} (l : list A) : list (nat * A) :=
  combine (seq 0 (length l)) l.

(** [slice(start, stop).indices(len)] for step 1: a negative bound
    counts from the end, and both bounds are clamped to [0, len]. *)
Definition clamp (len : nat) (v : Z) : Z :=
  if v <? 0 then Z.max (v + Z.of_nat len) 0 else Z.min v (Z.of_nat len).

Definition slice_indices (start stop : option Z) (len : nat) : nat * nat :=
  (match start with None => 0%nat | Some v => Z.to_nat (clamp len v) end,
   match stop with None => len | Some v => Z.to_nat (clamp len v) end).

(** The elements at positions [lo], ..., [hi - 1]; empty when
    [hi <= lo]. *)
Definition take_range {A} (lo hi : nat) (l : list A) : list A :=
  firstn (hi - lo) (skipn lo l).

(** [l[start:stop]] *)
Definition getslice {A} (l : list A) (start stop : option Z) : list A :=
  let '(lo, hi) := slice_indices start stop (length l) in
  take_range lo hi l.

(** [l[i]] *)
Definition getitem {A} (l : list A) (i : Z) : res A :=
  let j := if i <? 0 then i + Z.of_nat (length l) else i in
  if j <? 0 then Raise (IndexError "list index out of range")
  else match nth_error l (Z.to_nat j) with
       | Some a => Ok a
       | None => Raise (IndexError "list index out of range")
       end.

(** The value of a signed 64-bit integer: what an [int64] or a
    [Py_ssize_t] holds of [z]. *)
Definition wrap64 (z : Z) : Z := (z + 2 ^ 63) mod 2 ^ 64 - 2 ^ 63.

(** [len(l)] is a [Py_ssize_t].  A list of Python holds fewer than
    [2 ^ 63] objects, and there the reduction does nothing. *)
Definition len {A} (l : list A) : Z := wrap64 (Z.of_nat (length l)).

(** [range(stop)] *)
Definition range (stop : Z) : list Z :=
  map Z.of_nat (seq 0 (Z.to_nat stop)).

(** [range(start, stop, step)] *)
Definition range3 (start stop step : Z) : res (list Z) :=
  if step =? 0 then Raise (ValueError "range() arg 3 must not be zero")
  else
    let count :=
      if 0 <? step then (stop - start + step - 1) / step
      else (start - stop - step - 1) / (- step) in
    Ok (map (fun j => start + Z.of_nat j * step) (seq 0 (Z.to_nat count))).

(** *** Division of two ints

    A double is kept as [mant * 2 ^ expo]: a mantissa of at most 53
    bits and an exponent that is at least -1074. *)
Record double : Type := mkDouble { mant : Z; expo : Z }.

(** The integer nearest to [a / b] for a positive [b], a tie going to
    the even neighbour. *)
Definition div_nearest_even (a b : Z) : Z :=
  let q := a / b in
  match 2 * (a mod b) ?= b with
  | Lt => q
  | Gt => q + 1
  | Eq => if Z.even q then q else q + 1
  end.

(** [floor(log2(a / b))] for positive [a] and [b]. *)
Definition log2_quot (a b : Z) : Z :=
  let k := Z.log2 a - Z.log2 b in
  if a * 2 ^ Z.max (- k) 0 <? b * 2 ^ Z.max k 0 then k - 1 else k.

(** [n / d] for two ints and [d] other than zero: Python 3's true
    division returns the double nearest to the quotient, which is the
    quotient itself only when that is representable.  The quotient is
    scaled to 53 bits, or to the exponent -1074 of the subnormal
    numbers, and rounded there.  The dividends here are lengths of
    dimensions, which are below [2 ^ 63], so the quotient never leaves
    the range of the doubles. *)
Definition truediv (n d : Z) : double :=
  let a := Z.abs n in
  let b := Z.abs d in
  if a =? 0 then mkDouble 0 0
  else
    let e := Z.max (log2_quot a b - 52) (-1074) in
    let m := div_nearest_even (a * 2 ^ Z.max (- e) 0) (b * 2 ^ Z.max e 0) in
    mkDouble (Z.sgn n * Z.sgn d * m) e.

(** [int(np.ceil(x))] *)
Definition ceil (x : double) : Z :=
  if 0 <=? expo x then mant x * 2 ^ expo x
  else - ((- mant x) / 2 ^ (- expo x)).

(** [int(np.ceil(n / d))] *)
Definition ceil_div (n d : Z) : res Z :=
  if d =? 0 then Raise ZeroDivisionError else Ok (ceil (truediv n d)).

End Py.

Import Py.

Declare Scope res_scope.
Delimit Scope res_scope with res.
Notation "x <- c ;; k" := (Py.bind c (fun x => k))
  (at level 61, c at next level, right associativity) : res_scope.
Local Open Scope res_scope.

(** ** numpy: n-dimensional arrays in C order *)

Module Np.

(** An array is its shape and its elements laid out in row-major (C)
    order, as numpy stores a contiguous array.  The element type plays
    no role in what follows; integers stand for it. *)
Record ndarray : Type := mk { shape : list nat; data : list Z }.

Definition prod (s : list nat) : nat := fold_right Nat.mul 1%nat s.

Definition ndim (a : ndarray) : nat := length (shape a).

(** The invariant of the representation: one element per index. *)
Definition wf (a : ndarray) : Prop := length (data a) = prod (shape a).

(** The shape with the length of [axis] replaced. *)
Definition set_axis (axis n : nat) (s : list nat) : list nat :=
  (firstn axis s ++ n :: skipn (S axis) s)%list.

(** [d] cut into [m] consecutive runs of [len] elements. *)
Definition blocks_of {A} (m len : nat) (d : list A) : list (list A) :=
  map (fun o => firstn len (skipn (o * len) d)) (seq 0 m).

(** Along [axis] an array of shape [s] is [outer] runs of [n] rows of
    [inner] elements each. *)
Definition outer (axis : nat) (s : list nat) : nat := prod (firstn axis s).
Definition inner (axis : nat) (s : list nat) : nat := prod (skipn (S axis) s).
Definition axis_len (axis : nat) (s : list nat) : nat := nth axis s 0%nat.

(** The rows [lo], ..., [hi - 1] along [axis]. *)
Definition slice_axis (a : ndarray) (axis lo hi : nat) : ndarray :=
  let s := shape a in
  {| shape := set_axis axis (hi - lo) s;
     data := concat (map (fun b => take_range (lo * inner axis s)
                                              (hi * inner axis s) b)
                         (blocks_of (outer axis s)
                                    (axis_len axis s * inner axis s)
                                    (data a))) |}.

(** [a[:, ..., start:stop, ...]] with the slice in position [axis]. *)
Definition getitem_axis (a : ndarray) (axis : nat) (start stop : option Z)
  : res ndarray :=
  match nth_error (shape a) axis with
  | None => Raise (IndexError "too many indices for array")
  | Some n =>
      let '(lo, hi) := slice_indices start stop n in
      Ok (slice_axis a axis lo hi)
  end.

Definition same_off_axis (axis : nat) (s1 s2 : list nat) : bool :=
  if list_eq_dec Nat.eq_dec (set_axis axis 0 s1) (set_axis axis 0 s2)
  then true else false.

(** [np.concatenate(arrays, axis=axis)] *)
Definition concatenate (arrays : list ndarray) (axis : nat) : res ndarray :=
  match arrays with
  | [] => Raise (ValueError "need at least one array to concatenate")
  | a0 :: _ =>
      let s := shape a0 in
      if negb (axis <? ndim a0)%nat then
        Raise (ValueError "axis is out of bounds for array")
      else if negb (forallb (fun a => ndim a =? ndim a0)%nat arrays) then
        Raise (ValueError "all the input arrays must have same number of dimensions")
      else if negb (forallb (fun a => same_off_axis axis s (shape a)) arrays)
      then
        Raise (ValueError "all the input array dimensions except for the concatenation axis must match exactly")
      else
        Ok {| shape :=
                set_axis axis
                  (list_sum (map (fun a => axis_len axis (shape a)) arrays)) s;
              data :=
                concat
                  (map (fun o =>
                          concat
                            (map (fun a =>
                                    nth o (blocks_of (outer axis s)
                                             (axis_len axis (shape a)
                                              * inner axis s)
                                             (data a)) [])
                                 arrays))
                       (seq 0 (outer axis s))) |}
  end.

(** [np.prod(l)] for a list of ints that fit [int64]: the product is
    accumulated in [int64] and wraps around. *)
Definition prod_int64 (l : list Z) : Z :=
  fold_left (fun acc b => wrap64 (acc * b)) l 1.

(** Running sums: [np.cumsum]. *)
Fixpoint cumsum_from (acc : nat) (l : list nat) : list nat :=
  match l with
  | [] => []
  | x :: r => (acc + x)%nat :: cumsum_from (acc + x) r
  end.
Definition cumsum (l : list nat) : list nat := cumsum_from 0 l.

(** [np.array_split(ary, Nsections, axis=axis)] for an integer number
    of sections.  A part without rows keeps the shape of the other
    axes. *)
Definition array_split (ary : ndarray) (Nsections : Z) (axis : nat)
  : res (list ndarray) :=
  match nth_error (shape ary) axis with
  | None => Raise (IndexError "tuple index out of range")
  | Some Ntotal =>
      if Nsections <=? 0 then
        Raise (ValueError "number sections must be larger than 0.")
      else
        let k := Z.to_nat Nsections in
        let Neach_section := (Ntotal / k)%nat in
        let extras := (Ntotal mod k)%nat in
        let section_sizes :=
          0%nat :: repeat (S Neach_section) extras
            ++ repeat Neach_section (k - extras) in
        let div_points := cumsum section_sizes in
        mapM (fun i =>
                let st := nth i div_points 0%nat in
                let en := nth (S i) div_points 0%nat in
                getitem_axis ary axis (Some (Z.of_nat st))
                             (Some (Z.of_nat en)))
             (seq 0 k)
  end.

End Np.

(** ** xarray: datasets of named variables *)

Module Xr.

(** A variable: its dimension names, one per axis, and its values. *)
Record Var : Type := mkVar { dims : list string; values : Np.ndarray }.

(** A dataset is the ordered mapping of names to variables that xarray
    keeps; coordinate variables are entries like the others (the
    coordinate of a dimension [d] is the variable named [d]). *)
Definition Dataset : Type := list (string * Var).

Fixpoint index_of (d : string) (l : list string) : option nat :=
  match l with
  | [] => None
  | x :: r =>
      if String.eqb d x then Some 0%nat
      else match index_of d r with
           | Some i => Some (S i)
           | None => None
           end
  end.

(** [key in ds]: [Dataset.__contains__] tests the names of the
    variables of the dataset, data variables and coordinates alike.  A
    dimension that has no coordinate variable is not [in] the
    dataset. *)
Definition contains (ds : Dataset) (key : string) : bool :=
  existsb (String.eqb key) (map fst ds).

Definition var_size (v : Var) (dim : string) : option nat :=
  match index_of dim (dims v) with
  | Some ax => nth_error (Np.shape (values v)) ax
  | None => None
  end.

(** [ds.sizes[dim]]: the length of the dimension, read off the first
    variable that has it. *)
Fixpoint sizes (ds : Dataset) (dim : string) : res nat :=
  match ds with
  | [] => Raise (KeyError dim)
  | (_, v) :: rest =>
      match var_size v dim with
      | Some n => Ok n
      | None => sizes rest dim
      end
  end.

(** The dimension names of the dataset in order of first appearance. *)
Definition all_dims (ds : Dataset) : list string :=
  rev (nodup string_dec (rev (List.concat (map (fun nv => dims (snd nv)) ds)))).

Definition isel_var (dim : string) (start stop : option Z)
           (nv : string * Var) : res (string * Var) :=
  match index_of dim (dims (snd nv)) with
  | None => Ok nv
  | Some ax =>
      a <- Np.getitem_axis (values (snd nv)) ax start stop ;;
      Ok (fst nv, {| dims := dims (snd nv); values := a |})
  end.

(** [ds.isel] with [slice(start, stop)] for [dim]: every variable that has
    [dim] is sliced along it, the others are kept. *)
Definition isel (ds : Dataset) (dim : string) (start stop : option Z)
  : res Dataset :=
  match sizes ds dim with
  | Raise _ => Raise (ValueError "dimensions do not exist")
  | Ok _ => mapM (isel_var dim start stop) ds
  end.

Fixpoint lookup (ds : Dataset) (name : string) : option Var :=
  match ds with
  | [] => None
  | (k, v) :: rest => if String.eqb name k then Some v else lookup rest name
  end.

Definition concat_var (parts : list Dataset) (dim : string)
           (nv : string * Var) : res (string * Var) :=
  match index_of dim (dims (snd nv)) with
  | None => Ok nv
  | Some ax =>
      vs <- mapM (fun ds =>
                    match lookup ds (fst nv) with
                    | None =>
                        Raise (ValueError "variable is not present in all datasets")
                    | Some v =>
                        if list_eq_dec string_dec (dims v) (dims (snd nv))
                        then Ok (values v)
                        else Raise (ValueError "inconsistent dimensions")
                    end) parts ;;
      a <- Np.concatenate vs ax ;;
      Ok (fst nv, {| dims := dims (snd nv); values := a |})
  end.

(** [xr.concat(parts, dim=dim)] along a dimension of the datasets:
    the variables that have [dim] are concatenated along it.  A
    variable without [dim] is taken from the first dataset, which is
    what xarray does with a coordinate that is the same in all the
    datasets; a data variable without [dim] xarray repeats along [dim]
    (its default is [data_vars='all']).  What is stated below about the
    variables of a concatenation is therefore stated for datasets all
    of whose variables have [dim]; for the chunks of one split, whether
    the concatenation raises and the length of [dim] in the result do
    not depend on the difference. *)
Definition concat (parts : list Dataset) (dim : string) : res Dataset :=
  match parts with
  | [] => Raise (ValueError "must supply at least one object to concatenate")
  | first :: _ => mapM (concat_var parts dim) first
  end.

(** [ds.chunk({dim: chunksize})] changes how dask stores the data, not
    the data.  This holds for the chunk sizes dask accepts, which
    include every positive one. *)
Definition chunk (ds : Dataset) (dim : string) (chunksize : Z) : Dataset :=
  ds.

End Xr.

(** ** geo.utils *)

(** [chunks(l, n)]: successive [n]-sized slices of [l]. *)
Definition chunks {A} (l : list A) (n : Z) : res (list (list A)) :=
  idx <- range3 0 (Z.of_nat (length l)) n ;;
  Ok (map (fun i => getslice l (Some i) (Some (i + n))) idx).

(** One turn of the loop of [block_split]: every array of [result] is
    split along [axis] and the pieces are flattened into one list. *)
Definition block_split_step (result : list Np.ndarray) (an : nat * Z)
  : res (list Np.ndarray) :=
  let '(axis, nblocks) := an in
  pieces <- mapM (fun a => Np.array_split a nblocks axis) result ;;
  Ok (List.concat pieces).

(** [block_split(array, blocks)] *)
Definition block_split (array : Np.ndarray) (blocks : list Z)
  : res (list Np.ndarray) :=
  if negb (Np.ndim array =? length blocks)%nat then
    Raise (ValueError "Length of 'blocks' must be equal to the array dimensionality.")
  else foldM block_split_step (enumerate blocks) [array].

(** One turn of the loop of [block_merge], [len_blocks] being
    [len(blocks)]. *)
Definition block_merge_step (len_blocks : nat) (result : list Np.ndarray)
           (ib : nat * Z) : res (list Np.ndarray) :=
  let '(i, nblocks) := ib in
  let axis := (len_blocks - i - 1)%nat in
  groups <- chunks result nblocks ;;
  mapM (fun g => Np.concatenate g axis) groups.

(** [block_merge(array_list, blocks)] *)
Definition block_merge (array_list : list Np.ndarray) (blocks : list Z)
  : res Np.ndarray :=
  if negb (len array_list =? Np.prod_int64 blocks) then
    Raise (ValueError "Length of array list must be equal to the product of the shape elements.")
  else
    result <- foldM (block_merge_step (length blocks))
                    (enumerate (rev blocks)) array_list ;;
    getitem result 0.

(** The index range of chunk [i] in [xr_split]. *)
Definition chunk_low (chunksize buffer i : Z) : Z :=
  Z.max (i * chunksize - buffer) 0.
Definition chunk_high (chunksize buffer n i : Z) : Z :=
  Z.min ((i + 1) * chunksize + buffer) n.

(** [xr_split(ds, dim, chunks, buffer)]; the generator is represented by
    the list of what it yields, in order. *)
Definition xr_split (ds : Xr.Dataset) (dim : string) (chunks : Z)
           (buffer : Z) : res (list Xr.Dataset) :=
  n <- Xr.sizes ds dim ;;
  chunksize <- ceil_div (Z.of_nat n) chunks ;;
  mapM (fun i =>
          let low := chunk_low chunksize buffer i in
          let high := chunk_high chunksize buffer (Z.of_nat n) i in
          Xr.isel ds dim (Some low) (Some high))
       (range chunks).

(** [xr_merge(ds_list, dim, buffer)]; the three parts of the list are
    evaluated from left to right. *)
Definition xr_merge (ds_list : list Xr.Dataset) (dim : string) (buffer : Z)
  : res Xr.Dataset :=
  parts <-
    (if 0 <? buffer then
       first <- getitem ds_list 0 ;;
       p_first <- Xr.isel first dim None (Some (- buffer)) ;;
       p_middle <- mapM (fun ds => Xr.isel ds dim (Some buffer)
                                           (Some (- buffer)))
                        (getslice ds_list (Some 1) (Some (-1))) ;;
       last <- getitem ds_list (-1) ;;
       p_end <- Xr.isel last dim (Some buffer) None ;;
       Ok ([p_first] ++ p_middle ++ [p_end])%list
     else Ok ds_list) ;;
  Xr.concat parts dim.

(** *** The task graph built by [parallel]

    The execution engine (dask) is observed through the number of tasks
    created on it: every call of [delayed] adds one. *)

Definition Engine : Type := nat.

Definition M (A : Type) : Type := Engine -> res A * Engine.

Definition ret {A} (a : A) : M A := fun e => (Ok a, e).
Definition raise {A} (x : exn) : M A := fun e => (Raise x, e).
Definition lift {A} (c : res A) : M A := fun e => (c, e).
Definition bindM {A B} (c : M A) (k : A -> M B) : M B :=
  fun e =>
    match c e with
    | (Ok a, e') => k a e'
    | (Raise x, e') => (Raise x, e')
    end.

Declare Scope engine_scope.
Delimit Scope engine_scope with engine.
Notation "x <~ c ;; k" := (bindM c (fun x => k))
  (at level 61, c at next level, right associativity) : engine_scope.

(** [delayed(fn)(part, *args, **kwargs)] *)
Inductive task : Type :=
| Call (part : Xr.Dataset).

Inductive graph : Type :=
| Merge (parts : list task) (dim : string) (buffer : Z)
    (** [delayed(xr_merge)(parts, dim=dim, buffer=buffer)] *)
| Collect (parts : list task)
    (** [delayed(parts)] *).

Inductive value : Type :=
| One (ds : Xr.Dataset)
| Many (l : list Xr.Dataset).

Inductive outcome : Type :=
| Materialized (v : value)
| Deferred (g : graph).

Definition delayed_call (part : Xr.Dataset) : M task :=
  fun e => (Ok (Call part), S e).

Definition delayed_merge (parts : list task) (dim : string) (buffer : Z)
  : M graph :=
  fun e => (Ok (Merge parts dim buffer), S e).

Definition delayed_list (parts : list task) : M graph :=
  fun e => (Ok (Collect parts), S e).

Fixpoint mapMM {A B} (f : A -> M B) (l : list A) : M (list B) :=
  match l with
  | [] => ret []
  | x :: r =>
      bindM (f x) (fun y => bindM (mapMM f r) (fun ys => ret (y :: ys)))
  end.

Definition run_task (fn : Xr.Dataset -> res Xr.Dataset) (t : task)
  : res Xr.Dataset :=
  match t with Call part => fn part end.

(** [result.compute()] *)
Definition compute_graph (fn : Xr.Dataset -> res Xr.Dataset) (g : graph)
  : res value :=
  match g with
  | Merge parts dim buffer =>
      outs <- mapM (run_task fn) parts ;;
      merged <- xr_merge outs dim buffer ;;
      Ok (One merged)
  | Collect parts =>
      outs <- mapM (run_task fn) parts ;;
      Ok (Many outs)
  end.

Definition no_dimension (dim : string) : exn :=
  ValueError ("The dataset has no dimension '" ++ dim ++ "'.").

(** The function [parallel] returns, with what it closes over as
    leading arguments.  The extra arguments of [fn] are part of [fn]. *)
Definition wrapper (fn : Xr.Dataset -> res Xr.Dataset) (dim : string)
           (chunks : Z) (merge : bool) (buffer : Z) (compute : bool)
           (ds : Xr.Dataset) : M outcome :=
  (if negb (Xr.contains ds dim) then raise (no_dimension dim)
   else
     n <~ lift (Xr.sizes ds dim) ;;
     chunksize <~ lift (ceil_div (Z.of_nat n) chunks) ;;
     let prechunked := Xr.chunk ds dim chunksize in
     split <~ lift (xr_split prechunked dim chunks buffer) ;;
     parts <~ mapMM delayed_call split ;;
     result <~ (if merge then delayed_merge parts dim buffer
                else delayed_list parts) ;;
     if compute then
       v <~ lift (compute_graph fn result) ;;
       ret (Materialized v)
     else ret (Deferred result))%engine.

(** [parallel(fn, dim, chunks, chunksize, merge, buffer, compute)];
    [cpu_count] is what [mp.cpu_count()] returns.  The parameter
    [chunksize] of the source is never read and is left out. *)
Definition parallel (cpu_count : Z) (fn : Xr.Dataset -> res Xr.Dataset)
           (dim : option string) (chunks : option Z) (merge : bool)
           (buffer : Z) (compute : bool) : Xr.Dataset -> M outcome :=
  let dim := match dim with None => "lat" | Some d => d end in
  let chunks := match chunks with None => cpu_count | Some c => c end in
  wrapper fn dim chunks merge buffer compute.

(** ** Vocabulary of the statements *)

(** The near-equal partition of [n] rows into [k] parts: every part has
    [n / k] rows and the first [n mod k] parts have one more. *)
Definition part_size (n k j : nat) : nat :=
  (n / k + (if j <? n mod k then 1 else 0))%nat.

(** Where part [j] starts. *)
Definition part_offset (n k j : nat) : nat :=
  (j * (n / k) + Nat.min j (n mod k))%nat.

(** The block of [a] with multi-index [idx] under the block counts
    [spec]: along every axis, the part selected by the index of that
    axis.  [orig] is the shape of the array being split and [axis] the
    axis of the head of [spec]. *)
Fixpoint block_at_from (axis : nat) (orig : list nat) (a : Np.ndarray)
         (spec idx : list nat) : Np.ndarray :=
  match spec, idx with
  | k :: spec', i :: idx' =>
      let n := Np.axis_len axis orig in
      block_at_from (S axis) orig
        (Np.slice_axis a axis (part_offset n k i) (part_offset n k (S i)))
        spec' idx'
  | _, _ => a
  end.

Definition block_at (a : Np.ndarray) (spec idx : list nat) : Np.ndarray :=
  block_at_from 0 (Np.shape a) a spec idx.

(** The position of the multi-index [idx] in row-major order: the index
    of axis 0 varies slowest and that of the last axis fastest. *)
Fixpoint ravel_from (acc : nat) (spec idx : list nat) : nat :=
  match spec, idx with
  | k :: spec', i :: idx' => ravel_from (acc * k + i) spec' idx'
  | _, _ => acc
  end.

Definition ravel (spec idx : list nat) : nat := ravel_from 0 spec idx.

(** [idx] is a multi-index of a grid of [spec] blocks. *)
Definition valid_index (spec idx : list nat) : Prop :=
  Forall2 (fun i k => (i < k)%nat) idx spec.

(** The shape of the block with multi-index [idx]: along every axis the
    size of the selected part. *)
Fixpoint block_shape (orig spec idx : list nat) : list nat :=
  match orig, spec, idx with
  | n :: orig', k :: spec', i :: idx' =>
      part_size n k i :: block_shape orig' spec' idx'
  | _, _, _ => []
  end.

(** The ceiling of [n / d] for a positive [d]. *)
Definition ceiling (n d : Z) : Z := (n + d - 1) / d.

(** The selection of the index range [lo, hi) along [dim]: the rows
    [lo], ..., [hi - 1] of every variable that has the dimension. *)
Definition select_var (dim : string) (lo hi : nat) (nv : string * Xr.Var)
  : string * Xr.Var :=
  match Xr.index_of dim (Xr.dims (snd nv)) with
  | None => nv
  | Some ax =>
      (fst nv, {| Xr.dims := Xr.dims (snd nv);
                  Xr.values := Np.slice_axis (Xr.values (snd nv)) ax lo hi |})
  end.

Definition select_range (ds : Xr.Dataset) (dim : string) (lo hi : nat)
  : Xr.Dataset :=
  map (select_var dim lo hi) ds.

(** The invariants xarray maintains on a dataset: the names are unique
    and every variable has one dimension name per axis. *)
Definition dataset_ok (ds : Xr.Dataset) : Prop :=
  NoDup (map fst ds)
  /\ Forall (fun nv => length (Xr.dims (snd nv))
                       = Np.ndim (Xr.values (snd nv))) ds.

(** Every variable holds one element per index. *)
Definition values_wf (ds : Xr.Dataset) : Prop :=
  Forall (fun nv => Np.wf (Xr.values (snd nv))) ds.

(** [dim] is a dimension of [ds] of length [n]: all the variables that
    have it agree on its length. *)
Definition dim_len (ds : Xr.Dataset) (dim : string) (n : nat) : Prop :=
  Xr.sizes ds dim = Ok n
  /\ Forall (fun nv => forall m, Xr.var_size (snd nv) dim = Some m -> m = n)
            ds.

(** Two variables that can stand at the same place of datasets
    concatenated along [dim]. *)
Definition same_schema (dim : string) (nv nv' : string * Xr.Var) : Prop :=
  fst nv' = fst nv
  /\ Xr.dims (snd nv') = Xr.dims (snd nv)
  /\ Np.ndim (Xr.values (snd nv')) = Np.ndim (Xr.values (snd nv))
  /\ match Xr.index_of dim (Xr.dims (snd nv)) with
     | None => snd nv' = snd nv
     | Some ax =>
         Np.set_axis ax 0 (Np.shape (Xr.values (snd nv')))
         = Np.set_axis ax 0 (Np.shape (Xr.values (snd nv)))
     end.

(** How [xr.concat] along [dim] turns a variable [nv] of the first
    dataset into the variable [nv'] of the result, [total] being the
    summed length of [dim] over the datasets. *)
Definition concat_post (dim : string) (total : nat)
           (nv nv' : string * Xr.Var) : Prop :=
  fst nv' = fst nv
  /\ Xr.dims (snd nv') = Xr.dims (snd nv)
  /\ match Xr.index_of dim (Xr.dims (snd nv)) with
     | None => nv' = nv
     | Some ax =>
         nth_error (Np.shape (Xr.values (snd nv'))) ax = Some total
     end.

(** [p] has the variables of [base], with the same dimensions and the
    same shapes except along [dim], of which it holds a definite
    length: what a selection along [dim] leaves of [base]. *)
Definition chunk_of (base : Xr.Dataset) (dim : string) (p : Xr.Dataset)
  : Prop :=
  Forall2 (same_schema dim) base p /\ exists n, dim_len p dim n.

(** What holds of the list [R] that the loop of [block_split] has built
    from [a] once it has gone through the block counts [bs]. *)
Definition split_ok (a : Np.ndarray) (bs : list Z) (R : list Np.ndarray)
  : Prop :=
  let spec := map Z.to_nat bs in
  Z.of_nat (length R) = fold_right Z.mul 1 bs
  /\ Forall (fun r =>
               Np.wf r /\ Np.ndim r = Np.ndim a
               /\ forall ax, (length bs <= ax)%nat ->
                             Np.axis_len ax (Np.shape r)
                             = Np.axis_len ax (Np.shape a)) R
  /\ (forall idx, valid_index spec idx ->
                  nth_error R (ravel spec idx) = Some (block_at a spec idx))
  /\ foldM (block_merge_step (length bs)) (enumerate (rev bs)) R = Ok [a].

(** The section sizes that [np.array_split] accumulates into its
    division points. *)
Definition section_sizes (n k : nat) : list nat :=
  (repeat (S (n / k)%nat) (n mod k)%nat
     ++ repeat (n / k)%nat (k - n mod k)%nat)%list.

(** ** geo.utils: the other helpers *)

(** [itertools.product] of the iterables: the tuples of one element per
    iterable, the last iterable varying fastest. *)
Fixpoint itertools_product {A} (iterables : list (list A)) : list (list A) :=
  match iterables with
  | [] => [[]]
  | l :: rest =>
      flat_map (fun x => map (cons x) (itertools_product rest)) l
  end.

(** [dict_product(d)].  A dictionary is the list of its items in
    iteration order, with distinct keys; [dict(zip(d, x))] pairs the
    keys of [d] with the elements of the tuple [x]. *)
Definition dict_product {K V} (d : list (K * list V)) : list (list (K * V)) :=
  map (fun x => combine (map fst d) x) (itertools_product (map snd d)).

(** [l[i] = v] on a list. *)
Definition setitem {A} (l : list A) (i : Z) (v : A) : res (list A) :=
  let j := if i <? 0 then i + Z.of_nat (length l) else i in
  if (j <? 0) || (Z.of_nat (length l) <=? j) then
    Raise (IndexError "list assignment index out of range")
  else
    Ok (firstn (Z.to_nat j) l ++ v :: skipn (S (Z.to_nat j)) l)%list.

(** [array[indices]] where [indices] is a list of slices.  numpy (from
    version 1.23 on) reads an index that is a list and not a tuple as
    an index array, and an array of slices is none: the indexing
    raises.  The empty list selects no row of the first axis. *)
Definition getitem_list (a : Np.ndarray)
           (indices : list (option Z * option Z)) : res Np.ndarray :=
  match indices with
  | [] =>
      match Np.shape a with
      | [] => Raise (IndexError "too many indices for array")
      | _ :: rest => Ok (Np.mk (0%nat :: rest) [])
      end
  | _ :: _ =>
      Raise (IndexError "arrays used as indices must be of integer (or boolean) type")
  end.

(** [shape[i]] on the shape tuple of an array. *)
Definition shape_getitem (shape : list nat) (i : Z) : res nat :=
  let j := if i <? 0 then i + Z.of_nat (length shape) else i in
  if j <? 0 then Raise (IndexError "tuple index out of range")
  else match nth_error shape (Z.to_nat j) with
       | Some n => Ok n
       | None => Raise (IndexError "tuple index out of range")
       end.

(** What [array_chunks] yields: the chunk, or the index and the chunk
    when [return_indices] is set. *)
Inductive array_chunk : Type :=
| Chunk (a : Np.ndarray)
| Indexed (indices : list (option Z * option Z)) (a : Np.ndarray).

Definition axis_out_of_range (axis : Z) : exn :=
  ValueError ("axis "
              ++ DecimalString.NilZero.string_of_int (Z.to_int axis)
              ++ " is out of range for given array.").

(** [array_chunks(array, n, axis, return_indices)]; the generator is
    represented by the list of what it yields, or by the exception
    that ends it. *)
Definition array_chunks (array : Np.ndarray) (n : Z) (axis : Z)
           (return_indices : bool) : res (list array_chunk) :=
  if Z.of_nat (Np.ndim array) <=? axis then Raise (axis_out_of_range axis)
  else
    arr_len <- shape_getitem (Np.shape array) axis ;;
    idx <- range3 0 (Z.of_nat arr_len) n ;;
    mapM (fun i =>
            indices <- setitem (repeat (None, None) (Np.ndim array)) axis
                               (Some i, Some (i + n)) ;;
            chunk <- getitem_list array indices ;;
            Ok (if return_indices then Indexed indices chunk
                else Chunk chunk))
         idx.

(** The collections [select] tells apart by their type: a list, a
    dictionary, and any other sized collection (a tuple, say). *)
Inductive collection (K A : Type) : Type :=
| AList (l : list A)
| ADict (d : list (K * A))
| AOther (l : list A).
Arguments AList {K A} l.
Arguments ADict {K A} d.
Arguments AOther {K A} l.

(** What [select] returns: [None], one object, or a collection. *)
Inductive selection (K A : Type) : Type :=
| SNone
| SItem (a : A)
| SColl (c : collection K A).
Arguments SNone {K A}.
Arguments SItem {K A} a.
Arguments SColl {K A} c.

Definition coll_len {K A} (c : collection K A) : nat :=
  match c with
  | AList l => length l
  | ADict d => length d
  | AOther l => length l
  end.

(** [select(objects, fn, unlist, first)] *)
Definition select {K A} (objects : collection K A) (fn : A -> bool)
           (unlist first : bool) : selection K A :=
  let filtered :=
    match objects with
    | AList l => AList (filter fn l)
    | ADict d => ADict (filter (fun kv => fn (snd kv)) d)
    | AOther l => AOther l
    end in
  if first then
    if (coll_len filtered =? 0)%nat then SNone
    else match filtered with
         | AList (a :: _) => SItem a
         | ADict ((_, a) :: _) => SItem a
         | _ => SNone
         end
  else
    match filtered with
    | AList [a] => if unlist then SItem a else SColl filtered
    | _ => SColl filtered
    end.

(** [np.meshgrid(x, y)] with the default ['xy'] indexing: two arrays of
    shape [(len(y), len(x))], the first repeating [x] along the rows,
    the second repeating [y] along the columns. *)
Definition meshgrid (x y : list Z) : Np.ndarray * Np.ndarray :=
  (Np.mk [length y; length x] (concat (repeat x (length y))),
   Np.mk [length y; length x] (flat_map (fun v => repeat v (length x)) y)).

(** [xygrid(ncols, nrows)]; [np.arange(n)] is [range n]. *)
Definition xygrid (ncols nrows : Z) : Np.ndarray * Np.ndarray :=
  meshgrid (range nrows) (range ncols).

(** [a[idx]] for a full multi-index, in row-major order. *)
Definition item (a : Np.ndarray) (idx : list nat) : option Z :=
  nth_error (Np.data a) (ravel (Np.shape a) idx).

(** [set(s).issuperset(set(t))] *)
Definition issuperset (s t : list string) : bool :=
  forallb (fun d => existsb (String.eqb d) s) t.

(** [get_vars_for_dims(ds, dims)], given the mapping [ds.data_vars] of
    the dataset. *)
Definition get_vars_for_dims (data_vars : Xr.Dataset) (dims : list string)
  : list string :=
  map fst (filter (fun nv => issuperset (Xr.dims (snd nv)) dims) data_vars).

(** ** Sample arrays and datasets *)

Definition arange (start : Z) (n : nat) : list Z :=
  map (fun i => start + Z.of_nat i) (seq 0 n).

(** [np.arange(16).reshape((4, 4))] *)
Definition a44 : Np.ndarray := Np.mk [4; 4]%nat (arange 0 16).

(** A vector of five elements. *)
Definition a5 : Np.ndarray := Np.mk [5]%nat (arange 10 5).

(** A [2 x 3] matrix. *)
Definition a23 : Np.ndarray := Np.mk [2; 3]%nat (arange 1 6).

(** A dataset over one dimension [d] of length [n]: the coordinate of
    [d] and one data variable ["a"]. *)
Definition line (d : string) (n : nat) : Xr.Dataset :=
  [(d, Xr.mkVar [d] (Np.mk [n] (arange 0 n)));
   ("a", Xr.mkVar [d] (Np.mk [n] (arange 100 n)))].

(** [xr.Dataset({'a': ('x', [100, 101, 102])})]: the dimension ["x"]
    has no coordinate variable. *)
Definition no_coord : Xr.Dataset :=
  [("a", Xr.mkVar ["x"] (Np.mk [3]%nat (arange 100 3)))].

(** The transformation that returns its chunk unchanged. *)
Definition identity (ds : Xr.Dataset) : res Xr.Dataset := Ok ds.

(** * Properties *)

(** ** Lists cut into runs *)

Section Runs.
Context {A : Type}.
Implicit Types (l d b : list A) (bs : list (list A)).

Lemma list_sum_cons (x : nat) (xs : list nat) :
  list_sum (x :: xs) = (x + list_sum xs)%nat.
Proof. reflexivity. Qed.

Lemma firstn_plus (n m : nat) l :
  firstn (n + m) l = (firstn n l ++ firstn m (skipn n l))%list.
Proof.
  revert l; induction n as [|n IH]; intros [|x l]; simpl;
    try reflexivity.
  - now rewrite firstn_nil.
  - now rewrite IH.
Qed.

Lemma blocks_of_S (m len : nat) d :
  Np.blocks_of (S m) len d
  = firstn len d :: Np.blocks_of m len (skipn len d).
Proof.
  unfold Np.blocks_of. rewrite <- cons_seq, <- seq_shift.
  cbn [map]. rewrite map_map. simpl. f_equal.
  apply map_ext; intros o.
  now rewrite skipn_skipn, (Nat.add_comm len).
Qed.

Lemma length_blocks_of (m len : nat) d : length (Np.blocks_of m len d) = m.
Proof. unfold Np.blocks_of. now rewrite length_map, length_seq. Qed.

Lemma concat_blocks_of (m len : nat) d :
  concat (Np.blocks_of m len d) = firstn (m * len) d.
Proof.
  revert d; induction m as [|m IH]; intros d.
  - reflexivity.
  - rewrite blocks_of_S. simpl. now rewrite IH, firstn_plus.
Qed.

Lemma concat_blocks_of_all (m len : nat) d :
  length d = (m * len)%nat -> concat (Np.blocks_of m len d) = d.
Proof.
  intros H. rewrite concat_blocks_of. apply firstn_all2. lia.
Qed.

Lemma blocks_of_concat (len : nat) bs :
  Forall (fun b => length b = len) bs ->
  Np.blocks_of (length bs) len (concat bs) = bs.
Proof.
  induction 1 as [|b bs Hb _ IH]; [reflexivity|].
  simpl length. rewrite blocks_of_S. simpl concat.
  rewrite firstn_app, skipn_app, Hb, Nat.sub_diag, firstn_O, skipn_O.
  rewrite firstn_all2 by lia. rewrite skipn_all2 by lia.
  simpl. now rewrite app_nil_r, IH.
Qed.

Lemma blocks_of_lengths (m len : nat) d :
  length d = (m * len)%nat ->
  Forall (fun b => length b = len) (Np.blocks_of m len d).
Proof.
  revert d; induction m as [|m IH]; intros d H.
  - constructor.
  - rewrite blocks_of_S. constructor.
    + rewrite length_firstn. lia.
    + apply IH. rewrite length_skipn. lia.
Qed.

Lemma map_nth_seq (bs : list (list A)) :
  map (fun o => nth o bs []) (seq 0 (length bs)) = bs.
Proof.
  induction bs as [|b bs IH]; [reflexivity|].
  simpl length. rewrite <- cons_seq, <- seq_shift.
  cbn [map]. rewrite map_map. simpl. now rewrite IH.
Qed.

(** Consecutive ranges of widths [szs], each scaled by [w], put back
    together. *)
Lemma concat_take_ranges (w : nat) (szs : list nat) (off : nat) b :
  concat (map (fun j =>
                 take_range ((off + list_sum (firstn j szs)) * w)
                            ((off + list_sum (firstn (S j) szs)) * w) b)
              (seq 0 (length szs)))
  = take_range (off * w) ((off + list_sum szs) * w) b.
Proof.
  revert off; induction szs as [|z szs IH]; intros off.
  - simpl. unfold take_range. rewrite Nat.add_0_r, Nat.sub_diag.
    reflexivity.
  - simpl length. rewrite <- cons_seq, <- seq_shift.
    cbn [map]. rewrite map_map. cbn [concat].
    change (firstn 0 (z :: szs)) with (@nil nat).
    change (firstn 1 (z :: szs)) with [z].
    rewrite (map_ext _ (fun j =>
               take_range ((off + z + list_sum (firstn j szs)) * w)
                 ((off + z + list_sum (firstn (S j) szs)) * w) b)).
    2:{ intros j. rewrite !firstn_cons, !list_sum_cons.
        now rewrite !Nat.add_assoc. }
    rewrite IH, !list_sum_cons. unfold take_range. simpl list_sum.
    rewrite !Nat.add_0_r.
    replace ((off + z) * w)%nat with (z * w + off * w)%nat by lia.
    rewrite <- skipn_skipn.
    replace ((off + (z + list_sum szs)) * w - off * w)%nat
      with (z * w + list_sum szs * w)%nat by lia.
    rewrite firstn_plus. f_equal.
    + f_equal. lia.
    + f_equal. lia.
Qed.

End Runs.

(** ** Shapes *)

Lemma prod_app (s t : list nat) : Np.prod (s ++ t) = (Np.prod s * Np.prod t)%nat.
Proof.
  induction s as [|x s IH]; simpl.
  - lia.
  - rewrite IH. lia.
Qed.

Lemma shape_split (axis : nat) (s : list nat) :
  (axis < length s)%nat ->
  s = (firstn axis s ++ Np.axis_len axis s :: skipn (S axis) s)%list.
Proof.
  revert s; induction axis as [|axis IH]; intros [|x s] H; simpl in *;
    try lia.
  - reflexivity.
  - f_equal. apply IH. lia.
Qed.

Lemma prod_split (axis : nat) (s : list nat) :
  (axis < length s)%nat ->
  Np.prod s
  = (Np.outer axis s * (Np.axis_len axis s * Np.inner axis s))%nat.
Proof.
  intros H. rewrite (shape_split axis s H) at 1.
  now rewrite prod_app.
Qed.

Lemma set_axis_same (axis : nat) (s : list nat) :
  (axis < length s)%nat -> Np.set_axis axis (Np.axis_len axis s) s = s.
Proof. intros H. symmetry. now apply shape_split. Qed.

Lemma length_set_axis (axis n : nat) (s : list nat) :
  (axis < length s)%nat -> length (Np.set_axis axis n s) = length s.
Proof.
  intros H. unfold Np.set_axis.
  rewrite length_app, length_firstn, length_cons, length_skipn. lia.
Qed.

Lemma firstn_set_axis (axis n : nat) (s : list nat) :
  (axis < length s)%nat -> firstn axis (Np.set_axis axis n s) = firstn axis s.
Proof.
  intros H. unfold Np.set_axis.
  rewrite firstn_app, length_firstn, Nat.min_l by lia.
  rewrite Nat.sub_diag, firstn_O, app_nil_r.
  apply firstn_all2. rewrite length_firstn. lia.
Qed.

Lemma skipn_set_axis (axis n : nat) (s : list nat) :
  (axis < length s)%nat ->
  skipn (S axis) (Np.set_axis axis n s) = skipn (S axis) s.
Proof.
  intros H. unfold Np.set_axis.
  rewrite skipn_app, length_firstn, Nat.min_l by lia.
  rewrite skipn_all2 by (rewrite length_firstn; lia).
  replace (S axis - axis)%nat with 1%nat by lia. reflexivity.
Qed.

Lemma axis_len_set_axis (axis n : nat) (s : list nat) :
  (axis < length s)%nat -> Np.axis_len axis (Np.set_axis axis n s) = n.
Proof.
  intros H. unfold Np.axis_len, Np.set_axis.
  rewrite app_nth2; rewrite length_firstn, Nat.min_l by lia; [|lia].
  now rewrite Nat.sub_diag.
Qed.

Lemma set_axis_twice (axis n m : nat) (s : list nat) :
  (axis < length s)%nat ->
  Np.set_axis axis n (Np.set_axis axis m s) = Np.set_axis axis n s.
Proof.
  intros H. unfold Np.set_axis at 1.
  rewrite firstn_set_axis, skipn_set_axis by assumption. reflexivity.
Qed.

Lemma outer_set_axis (axis n : nat) (s : list nat) :
  (axis < length s)%nat -> Np.outer axis (Np.set_axis axis n s) = Np.outer axis s.
Proof. intros H. unfold Np.outer. now rewrite firstn_set_axis. Qed.

Lemma inner_set_axis (axis n : nat) (s : list nat) :
  (axis < length s)%nat -> Np.inner axis (Np.set_axis axis n s) = Np.inner axis s.
Proof. intros H. unfold Np.inner. now rewrite skipn_set_axis. Qed.

(** Replacing the length of one axis leaves the other axes alone. *)
Lemma nth_set_axis_other (axis n k : nat) (s : list nat) :
  (axis < length s)%nat -> k <> axis ->
  nth k (Np.set_axis axis n s) 0%nat = nth k s 0%nat.
Proof.
  intros H Hk. rewrite (shape_split axis s H) at 2. unfold Np.set_axis.
  destruct (Nat.lt_ge_cases k axis) as [Hlt|Hge].
  - rewrite !app_nth1 by (rewrite length_firstn; lia). reflexivity.
  - rewrite !app_nth2 by (rewrite length_firstn; lia).
    rewrite length_firstn, Nat.min_l by lia.
    destruct (k - axis)%nat as [|d] eqn:E; [lia|]. reflexivity.
Qed.

Lemma axis_len_nth_error (axis : nat) (s : list nat) :
  (axis < length s)%nat -> nth_error s axis = Some (Np.axis_len axis s).
Proof. intros H. unfold Np.axis_len. now apply nth_error_nth'. Qed.

(** ** Slicing and concatenating along one axis *)

Lemma length_take_range {A} (lo hi : nat) (l : list A) :
  (hi <= length l)%nat -> length (take_range lo hi l) = (hi - lo)%nat.
Proof.
  intros H. unfold take_range. rewrite length_firstn, length_skipn. lia.
Qed.

Lemma take_range_all {A} (n : nat) (l : list A) :
  length l = n -> take_range 0 n l = l.
Proof.
  intros H. unfold take_range. rewrite skipn_O, Nat.sub_0_r.
  apply firstn_all2. lia.
Qed.

Lemma length_concat_uniform {A} (c : nat) (bs : list (list A)) :
  Forall (fun b => length b = c) bs ->
  length (concat bs) = (length bs * c)%nat.
Proof.
  induction 1 as [|b bs Hb _ IH]; [reflexivity|].
  simpl. rewrite length_app, IH, Hb. reflexivity.
Qed.

Lemma map_nth_seq_default {A} (d : A) (l : list A) :
  map (fun j => nth j l d) (seq 0 (length l)) = l.
Proof.
  induction l as [|x l IH]; [reflexivity|].
  simpl length. rewrite <- cons_seq, <- seq_shift.
  cbn [map]. rewrite map_map. simpl. now rewrite IH.
Qed.

Lemma ndarray_eq (x y : Np.ndarray) :
  Np.shape x = Np.shape y -> Np.data x = Np.data y -> x = y.
Proof. destruct x, y; simpl; intros; subst; reflexivity. Qed.

Lemma same_off_axis_true (axis : nat) (s t : list nat) :
  Np.same_off_axis axis s t = true
  <-> Np.set_axis axis 0 s = Np.set_axis axis 0 t.
Proof.
  unfold Np.same_off_axis. destruct (list_eq_dec _ _ _); split; congruence.
Qed.

(** What [np.concatenate] returns when its checks pass. *)
Lemma concatenate_eq (arrays : list Np.ndarray) (a0 : Np.ndarray) (axis : nat) :
  hd_error arrays = Some a0 ->
  (axis < Np.ndim a0)%nat ->
  (forall x, In x arrays -> Np.ndim x = Np.ndim a0) ->
  (forall x, In x arrays ->
             Np.set_axis axis 0 (Np.shape a0) = Np.set_axis axis 0 (Np.shape x)) ->
  Np.concatenate arrays axis
  = Ok {| Np.shape :=
            Np.set_axis axis
              (list_sum (map (fun x => Np.axis_len axis (Np.shape x)) arrays))
              (Np.shape a0);
          Np.data :=
            concat
              (map (fun o =>
                      concat
                        (map (fun x =>
                                nth o (Np.blocks_of (Np.outer axis (Np.shape a0))
                                         (Np.axis_len axis (Np.shape x)
                                          * Np.inner axis (Np.shape a0))
                                         (Np.data x)) [])
                             arrays))
                   (seq 0 (Np.outer axis (Np.shape a0)))) |}.
Proof.
  intros Hhd Hax Hnd Hall. destruct arrays as [|x0 rest]; [discriminate|].
  injection Hhd as ->. unfold Np.concatenate.
  apply Nat.ltb_lt in Hax as ->. cbn [negb].
  replace (forallb (fun a => Np.ndim a =? Np.ndim a0)%nat _) with true.
  2:{ symmetry. apply forallb_forall. intros x Hx.
      apply Nat.eqb_eq. now apply Hnd. }
  cbn [negb].
  replace (forallb _ _) with true; [reflexivity|].
  symmetry. apply forallb_forall. intros x Hx.
  apply same_off_axis_true. now apply Hall.
Qed.

Lemma shape_slice_axis (a : Np.ndarray) (axis lo hi : nat) :
  Np.shape (Np.slice_axis a axis lo hi)
  = Np.set_axis axis (hi - lo) (Np.shape a).
Proof. reflexivity. Qed.

Lemma offsets_step_list (szs : list nat) (j : nat) :
  list_sum (firstn (S j) szs)
  = (list_sum (firstn j szs) + nth j szs 0)%nat.
Proof.
  revert j; induction szs as [|z l IH]; intros [|j]; try reflexivity.
  - simpl. lia.
  - rewrite !firstn_cons, !list_sum_cons, IH. simpl. lia.
Qed.

Lemma offsets_le (szs : list nat) (j : nat) :
  (list_sum (firstn j szs) <= list_sum szs)%nat.
Proof.
  rewrite <- (firstn_skipn j szs) at 2. rewrite list_sum_app. lia.
Qed.

Section OneAxis.
Variables (a : Np.ndarray) (axis : nat).
Hypothesis Hwf : Np.wf a.
Hypothesis Haxis : (axis < Np.ndim a)%nat.

Let s := Np.shape a.
Let n := Np.axis_len axis s.
Let w := Np.inner axis s.
Let m := Np.outer axis s.

Lemma rows_lengths :
  Forall (fun b => length b = (n * w)%nat) (Np.blocks_of m (n * w) (Np.data a)).
Proof.
  apply blocks_of_lengths. rewrite Hwf. now apply prod_split.
Qed.

Lemma sliced_rows_lengths (lo hi : nat) :
  (hi <= n)%nat ->
  Forall (fun b => length b = ((hi - lo) * w)%nat)
         (map (fun b => take_range (lo * w) (hi * w) b)
              (Np.blocks_of m (n * w) (Np.data a))).
Proof.
  intros H. apply Forall_map. eapply Forall_impl; [|apply rows_lengths].
  cbv beta. intros b Hb. rewrite length_take_range; nia.
Qed.

Lemma slice_blocks (lo hi : nat) :
  (hi <= n)%nat ->
  Np.blocks_of m ((hi - lo) * w) (Np.data (Np.slice_axis a axis lo hi))
  = map (fun b => take_range (lo * w) (hi * w) b)
        (Np.blocks_of m (n * w) (Np.data a)).
Proof.
  intros H. unfold Np.slice_axis; cbn [Np.data]. fold s w n m.
  rewrite <- (length_blocks_of m (n * w) (Np.data a)) at 1.
  rewrite <- (length_map (fun b => take_range (lo * w) (hi * w) b)).
  apply blocks_of_concat. now apply sliced_rows_lengths.
Qed.

Lemma wf_slice_axis (lo hi : nat) :
  (hi <= n)%nat -> Np.wf (Np.slice_axis a axis lo hi).
Proof.
  intros H. unfold Np.wf. unfold Np.slice_axis; cbn [Np.data Np.shape].
  fold s w n m.
  rewrite (length_concat_uniform ((hi - lo) * w))
    by now apply sliced_rows_lengths.
  rewrite length_map, length_blocks_of.
  rewrite (prod_split axis) by (rewrite length_set_axis; assumption).
  rewrite outer_set_axis, inner_set_axis, axis_len_set_axis by assumption.
  reflexivity.
Qed.

Lemma ndim_slice_axis (lo hi : nat) :
  Np.ndim (Np.slice_axis a axis lo hi) = Np.ndim a.
Proof. unfold Np.ndim. cbn. now apply length_set_axis. Qed.

(** Slices taken at consecutive offsets that cover the axis
    concatenate to the array they were taken from. *)
Lemma concatenate_slices (szs : list nat) :
  szs <> [] ->
  list_sum szs = n ->
  Np.concatenate
    (map (fun j => Np.slice_axis a axis (list_sum (firstn j szs))
                                 (list_sum (firstn (S j) szs)))
         (seq 0 (length szs)))
    axis
  = Ok a.
Proof.
  intros Hne Hsum.
  set (part := fun j => Np.slice_axis a axis (list_sum (firstn j szs))
                                      (list_sum (firstn (S j) szs))).
  assert (Hs : (axis < length s)%nat) by exact Haxis.
  rewrite (concatenate_eq _ (part 0%nat)).
  - f_equal. apply ndarray_eq; cbn [Np.shape Np.data].
    + rewrite map_map.
      rewrite (map_ext _ (fun j => nth j szs 0%nat)).
      2:{ intros j. unfold part. cbn [Np.shape Np.slice_axis].
          rewrite axis_len_set_axis by assumption.
          rewrite offsets_step_list. lia. }
      rewrite map_nth_seq_default, Hsum.
      unfold part; cbn [Np.shape Np.slice_axis].
      rewrite set_axis_twice by assumption. now apply set_axis_same.
    + assert (Hm0 : Np.outer axis (Np.shape (part 0%nat)) = m)
        by (unfold part; cbn [Np.shape Np.slice_axis];
            now apply outer_set_axis).
      assert (Hw0 : Np.inner axis (Np.shape (part 0%nat)) = w)
        by (unfold part; cbn [Np.shape Np.slice_axis];
            now apply inner_set_axis).
      rewrite Hm0, Hw0.
      transitivity (concat (Np.blocks_of m (n * w) (Np.data a))).
      2:{ apply concat_blocks_of_all. rewrite Hwf. now apply prod_split. }
      f_equal.
      rewrite <- (map_nth_seq (Np.blocks_of m (n * w) (Np.data a))).
      rewrite length_blocks_of. apply map_ext_in. intros o Ho.
      apply in_seq in Ho. rewrite map_map.
      rewrite (map_ext _ (fun j =>
                 take_range ((0 + list_sum (firstn j szs)) * w)
                            ((0 + list_sum (firstn (S j) szs)) * w)
                            (nth o (Np.blocks_of m (n * w) (Np.data a)) []))).
      2:{ intros j. unfold part. rewrite shape_slice_axis.
          rewrite axis_len_set_axis by assumption.
          fold s w m n.
          rewrite slice_blocks by (rewrite <- Hsum; apply offsets_le).
          rewrite (nth_indep _ [] (take_range (list_sum (firstn j szs) * w)
                                    (list_sum (firstn (S j) szs) * w) []))
            by (rewrite length_map, length_blocks_of; lia).
          rewrite (map_nth (fun b => take_range _ _ b)). reflexivity. }
      rewrite concat_take_ranges, Hsum. simpl Nat.add. simpl Nat.mul.
      apply take_range_all.
      pose proof rows_lengths as Hrows.
      rewrite Forall_forall in Hrows. apply Hrows. apply nth_In.
      rewrite length_blocks_of. lia.
  - destruct szs; [congruence|]. reflexivity.
  - unfold part. now rewrite ndim_slice_axis.
  - intros x Hx. apply in_map_iff in Hx as (j & <- & _).
    unfold part. now rewrite !ndim_slice_axis.
  - intros x Hx. apply in_map_iff in Hx as (j & <- & _).
    unfold part; cbn [Np.shape Np.slice_axis].
    now rewrite !set_axis_twice by assumption.
Qed.

End OneAxis.

(** ** [np.array_split] *)

Lemma mapM_ok {A B} (f : A -> res B) (g : A -> B) (l : list A) :
  (forall x, In x l -> f x = Ok (g x)) -> mapM f l = Ok (map g l).
Proof.
  induction l as [|x l IH]; intros H; [reflexivity|].
  simpl. rewrite H by now left. rewrite IH; [reflexivity|].
  intros y Hy. apply H. now right.
Qed.

Lemma slice_indices_nat (lo hi n : nat) :
  (lo <= n)%nat -> (hi <= n)%nat ->
  slice_indices (Some (Z.of_nat lo)) (Some (Z.of_nat hi)) n = (lo, hi).
Proof.
  intros Hlo Hhi. unfold slice_indices, clamp.
  destruct (Z.ltb_spec (Z.of_nat lo) 0); [lia|].
  destruct (Z.ltb_spec (Z.of_nat hi) 0); [lia|].
  f_equal; lia.
Qed.

Lemma getitem_axis_nat (a : Np.ndarray) (axis lo hi : nat) :
  (axis < Np.ndim a)%nat ->
  (lo <= Np.axis_len axis (Np.shape a))%nat ->
  (hi <= Np.axis_len axis (Np.shape a))%nat ->
  Np.getitem_axis a axis (Some (Z.of_nat lo)) (Some (Z.of_nat hi))
  = Ok (Np.slice_axis a axis lo hi).
Proof.
  intros Hax Hlo Hhi. unfold Np.getitem_axis.
  rewrite (axis_len_nth_error axis) by exact Hax.
  now rewrite slice_indices_nat.
Qed.

Lemma length_section_sizes (n k : nat) :
  (0 < k)%nat -> length (section_sizes n k) = k.
Proof.
  intros Hk. unfold section_sizes. rewrite length_app, !repeat_length.
  pose proof (Nat.mod_upper_bound n k). lia.
Qed.

Lemma nth_section_sizes (n k j : nat) :
  (j < k)%nat -> nth j (section_sizes n k) 0%nat = part_size n k j.
Proof.
  intros Hj. unfold section_sizes, part_size.
  pose proof (Nat.mod_upper_bound n k ltac:(lia)) as Hr.
  destruct (Nat.ltb_spec j (n mod k)).
  - rewrite app_nth1 by now rewrite repeat_length.
    rewrite nth_repeat_lt by assumption. lia.
  - rewrite app_nth2; rewrite repeat_length; [|lia].
    rewrite nth_repeat_lt by lia. lia.
Qed.

Lemma part_offset_S (n k j : nat) :
  part_offset n k (S j) = (part_offset n k j + part_size n k j)%nat.
Proof.
  unfold part_offset, part_size. destruct (Nat.ltb_spec j (n mod k)); lia.
Qed.

Lemma section_offsets (n k j : nat) :
  (j <= k)%nat ->
  list_sum (firstn j (section_sizes n k)) = part_offset n k j.
Proof.
  induction j as [|j IH]; intros Hj.
  - reflexivity.
  - rewrite offsets_step_list, IH, nth_section_sizes, part_offset_S by lia.
    reflexivity.
Qed.

Lemma part_offset_last (n k : nat) : (0 < k)%nat -> part_offset n k k = n.
Proof.
  intros Hk. unfold part_offset.
  pose proof (Nat.mod_upper_bound n k ltac:(lia)).
  pose proof (Nat.div_mod_eq n k). rewrite Nat.min_r by lia. lia.
Qed.

Lemma part_offset_mono (n k i j : nat) :
  (i <= j)%nat -> (part_offset n k i <= part_offset n k j)%nat.
Proof.
  intros H. unfold part_offset.
  assert (i * (n / k) <= j * (n / k))%nat by now apply Nat.mul_le_mono_r.
  lia.
Qed.

Lemma list_sum_section_sizes (n k : nat) :
  (0 < k)%nat -> list_sum (section_sizes n k) = n.
Proof.
  intros Hk. rewrite <- (firstn_all (section_sizes n k)).
  rewrite length_section_sizes, section_offsets by lia.
  now apply part_offset_last.
Qed.

Lemma nth_cumsum_from (l : list nat) (acc i : nat) :
  (i < length l)%nat ->
  nth i (Np.cumsum_from acc l) 0%nat = (acc + list_sum (firstn (S i) l))%nat.
Proof.
  revert acc i; induction l as [|x l IH]; intros acc i Hi; simpl in Hi.
  - lia.
  - destruct i as [|i].
    + simpl. lia.
    + cbn [Np.cumsum_from nth]. rewrite IH by lia.
      rewrite (firstn_cons (S i)), list_sum_cons. lia.
Qed.

Lemma nth_div_points (szs : list nat) (i : nat) :
  (i <= length szs)%nat ->
  nth i (Np.cumsum (0%nat :: szs)) 0%nat = list_sum (firstn i szs).
Proof.
  intros Hi. unfold Np.cumsum. cbn [Np.cumsum_from]. destruct i as [|i].
  - reflexivity.
  - cbn [nth]. rewrite nth_cumsum_from by lia. reflexivity.
Qed.

(** The parts [np.array_split] returns, in closed form. *)
Lemma array_split_eq (a : Np.ndarray) (k : Z) (axis : nat) :
  (axis < Np.ndim a)%nat -> 0 < k ->
  Np.array_split a k axis
  = Ok (map (fun j =>
               Np.slice_axis a axis
                 (part_offset (Np.axis_len axis (Np.shape a)) (Z.to_nat k) j)
                 (part_offset (Np.axis_len axis (Np.shape a)) (Z.to_nat k) (S j)))
            (seq 0 (Z.to_nat k))).
Proof.
  intros Hax Hk. unfold Np.array_split.
  rewrite (axis_len_nth_error axis) by exact Hax.
  destruct (Z.leb_spec k 0); [lia|].
  set (n := Np.axis_len axis (Np.shape a)).
  set (kn := Z.to_nat k). assert (Hkn : (0 < kn)%nat) by (subst kn; lia).
  fold (section_sizes n kn).
  apply mapM_ok. intros j Hj. apply in_seq in Hj.
  rewrite !nth_div_points by (rewrite length_section_sizes; lia).
  rewrite !section_offsets by lia.
  apply getitem_axis_nat; [assumption| |]; fold n;
    rewrite <- (part_offset_last n kn Hkn) at 2; apply part_offset_mono; lia.
Qed.

(** Concatenating what [np.array_split] returns gives the array back. *)
Lemma concatenate_array_split (a : Np.ndarray) (k : Z) (axis : nat) :
  Np.wf a -> (axis < Np.ndim a)%nat -> 0 < k ->
  exists parts,
    Np.array_split a k axis = Ok parts /\ Np.concatenate parts axis = Ok a.
Proof.
  intros Hwf Hax Hk. eexists; split; [now apply array_split_eq|].
  set (n := Np.axis_len axis (Np.shape a)).
  set (kn := Z.to_nat k). assert (Hkn : (0 < kn)%nat) by (subst kn; lia).
  replace (seq 0 kn) with (seq 0 (length (section_sizes n kn)))
    by now rewrite length_section_sizes.
  rewrite (map_ext_in _ (fun j =>
             Np.slice_axis a axis (list_sum (firstn j (section_sizes n kn)))
               (list_sum (firstn (S j) (section_sizes n kn))))).
  - apply concatenate_slices; try assumption.
    + intros E. apply (f_equal (@length nat)) in E.
      rewrite length_section_sizes in E by assumption. simpl in E. lia.
    + now apply list_sum_section_sizes.
  - intros j Hj. apply in_seq in Hj.
    rewrite length_section_sizes in Hj by assumption.
    now rewrite !section_offsets by lia.
Qed.

(** ** Loops *)

Lemma foldM_app {A B} (body : B -> A -> res B) (l1 l2 : list A) (acc : B) :
  foldM body (l1 ++ l2) acc
  = (r <- foldM body l1 acc ;; foldM body l2 r).
Proof.
  revert acc; induction l1 as [|x l1 IH]; intros acc; simpl.
  - reflexivity.
  - destruct (body acc x); [apply IH | reflexivity].
Qed.

Lemma combine_append {A B} (l1 l2 : list A) (m1 m2 : list B) :
  length l1 = length m1 ->
  combine (l1 ++ l2) (m1 ++ m2) = (combine l1 m1 ++ combine l2 m2)%list.
Proof.
  revert m1; induction l1 as [|x l1 IH]; intros [|y m1] H; simpl in *;
    try discriminate.
  - reflexivity.
  - f_equal. apply IH. lia.
Qed.

Lemma enumerate_snoc {A} (l : list A) (x : A) :
  enumerate (l ++ [x]) = (enumerate l ++ [(length l, x)])%list.
Proof.
  unfold enumerate. rewrite length_app. simpl length.
  rewrite Nat.add_1_r, seq_S. simpl.
  rewrite combine_append by now rewrite length_seq. reflexivity.
Qed.

Lemma enumerate_cons {A} (x : A) (l : list A) :
  enumerate (x :: l)
  = (0%nat, x) :: map (fun ib => (S (fst ib), snd ib)) (enumerate l).
Proof.
  unfold enumerate. simpl length. rewrite <- cons_seq, <- seq_shift.
  cbn [combine]. f_equal.
  generalize (seq 0 (length l)) as js. intros js; revert l.
  induction js as [|j js IH]; intros [|y l]; simpl; try reflexivity.
  now rewrite IH.
Qed.

Lemma foldM_merge_shift (len : nat) (l : list (nat * Z))
      (acc : list Np.ndarray) :
  foldM (block_merge_step (S len))
        (map (fun ib => (S (fst ib), snd ib)) l) acc
  = foldM (block_merge_step len) l acc.
Proof.
  revert acc; induction l as [|[i b] l IH]; intros acc; simpl.
  - reflexivity.
  - destruct (chunks acc b); simpl; [|reflexivity].
    destruct (mapM _ _); [apply IH | reflexivity].
Qed.

Lemma nth_error_concat_uniform {A} (k : nat) (L : list (list A)) (p i : nat) :
  Forall (fun b => length b = k) L -> (i < k)%nat ->
  nth_error (concat L) (p * k + i) = nth_error (nth p L []) i.
Proof.
  intros H; revert p; induction H as [|b L Hb _ IH]; intros p Hi.
  - simpl. destruct p; now rewrite !nth_error_nil.
  - destruct p as [|p]; simpl.
    + rewrite nth_error_app1 by lia. reflexivity.
    + rewrite nth_error_app2 by lia.
      replace (k + p * k + i - length b)%nat with (p * k + i)%nat by lia.
      now apply IH.
Qed.

(** [chunks] undoes the flattening of groups of equal length. *)
Lemma chunks_concat {A} (k : Z) (L : list (list A)) :
  0 < k ->
  Forall (fun b => length b = Z.to_nat k) L ->
  chunks (concat L) k = Ok L.
Proof.
  intros Hk HL. unfold chunks, range3.
  destruct (Z.eqb_spec k 0); [lia|].
  destruct (Z.ltb_spec 0 k); [|lia]. cbn [bind].
  set (kn := Z.to_nat k) in *.
  assert (Hlen : length (concat L) = (length L * kn)%nat)
    by now apply length_concat_uniform.
  assert (Hcount : Z.to_nat ((Z.of_nat (length (concat L)) - 0 + k - 1) / k)
                   = length L).
  { rewrite Hlen. replace (Z.of_nat (length L * kn) - 0 + k - 1)
      with (Z.of_nat (length L) * k + (k - 1)) by lia.
    rewrite Z.div_add_l by lia. rewrite Z.div_small by lia. lia. }
  rewrite Hcount. f_equal. rewrite map_map.
  rewrite <- (blocks_of_concat kn L HL) at 2. unfold Np.blocks_of.
  apply map_ext_in. intros j Hj. apply in_seq in Hj.
  unfold getslice.
  replace (0 + Z.of_nat j * k) with (Z.of_nat (j * kn)) by lia.
  replace (Z.of_nat (j * kn) + k) with (Z.of_nat (j * kn + kn)) by lia.
  rewrite slice_indices_nat by nia.
  unfold take_range. f_equal. lia.
Qed.

Lemma ravel_from_snoc (spec idx : list nat) (k i acc : nat) :
  length idx = length spec ->
  ravel_from acc (spec ++ [k]) (idx ++ [i])
  = (ravel_from acc spec idx * k + i)%nat.
Proof.
  revert idx acc; induction spec as [|k0 spec IH]; intros [|i0 idx] acc H;
    simpl in H; try discriminate.
  - reflexivity.
  - simpl. apply IH. lia.
Qed.

Lemma block_at_from_snoc (axis : nat) (orig : list nat) (a : Np.ndarray)
      (spec idx : list nat) (k i : nat) :
  length idx = length spec ->
  block_at_from axis orig a (spec ++ [k]) (idx ++ [i])
  = Np.slice_axis (block_at_from axis orig a spec idx)
      (axis + length spec)
      (part_offset (Np.axis_len (axis + length spec) orig) k i)
      (part_offset (Np.axis_len (axis + length spec) orig) k (S i)).
Proof.
  revert axis a idx; induction spec as [|k0 spec IH];
    intros axis a [|i0 idx] H; simpl in H; try discriminate.
  - simpl. now rewrite Nat.add_0_r.
  - simpl app. cbn [block_at_from]. rewrite IH by lia.
    simpl length. now rewrite Nat.add_succ_r.
Qed.

Lemma valid_index_snoc (spec idx' : list nat) (k : nat) :
  valid_index (spec ++ [k]) idx' ->
  exists idx i, idx' = (idx ++ [i])%list /\ valid_index spec idx
                /\ (i < k)%nat.
Proof.
  unfold valid_index. intros H.
  apply Forall2_app_inv_r in H as (idx & tl & H1 & H2 & ->).
  inversion H2 as [|i k' tl' n' Hi Hnil]; subst.
  inversion Hnil; subst. now exists idx, i.
Qed.

Lemma valid_index_length (spec idx : list nat) :
  valid_index spec idx -> length idx = length spec.
Proof. apply Forall2_length. Qed.

(** ** [block_split] and [block_merge] *)

Lemma concatenate_parts (r : Np.ndarray) (axis k : nat) :
  Np.wf r -> (axis < Np.ndim r)%nat -> (0 < k)%nat ->
  Np.concatenate
    (map (fun j =>
            Np.slice_axis r axis
              (part_offset (Np.axis_len axis (Np.shape r)) k j)
              (part_offset (Np.axis_len axis (Np.shape r)) k (S j)))
         (seq 0 k))
    axis
  = Ok r.
Proof.
  intros Hwf Hax Hk.
  destruct (concatenate_array_split r (Z.of_nat k) axis Hwf Hax ltac:(lia))
    as (parts & Hsplit & Hcat).
  rewrite array_split_eq in Hsplit by (assumption || lia).
  rewrite Nat2Z.id in Hsplit. injection Hsplit as <-. exact Hcat.
Qed.

Lemma mapM_map_inverse {A B} (f : B -> res A) (g : A -> B) (l : list A) :
  (forall x, In x l -> f (g x) = Ok x) -> mapM f (map g l) = Ok l.
Proof.
  induction l as [|x l IH]; intros H; [reflexivity|].
  simpl. rewrite H by now left. rewrite IH; [reflexivity|].
  intros y Hy. apply H. now right.
Qed.

Lemma fold_right_mul_snoc (bs : list Z) (b : Z) :
  fold_right Z.mul 1 (bs ++ [b]) = fold_right Z.mul 1 bs * b.
Proof.
  induction bs as [|x bs IH]; cbn [app fold_right].
  - lia.
  - rewrite IH. lia.
Qed.

Lemma split_ok_nil (a : Np.ndarray) : Np.wf a -> split_ok a [] [a].
Proof.
  intros Hwf. unfold split_ok. split; [reflexivity|].
  split; [|split; [|reflexivity]].
  - constructor; [|constructor]. repeat split; auto.
  - intros idx Hidx. inversion Hidx; subst. reflexivity.
Qed.

Lemma split_step_ok (a : Np.ndarray) (bs : list Z) (b : Z)
      (R : list Np.ndarray) :
  0 < b -> (length bs < Np.ndim a)%nat -> split_ok a bs R ->
  exists R',
    block_split_step R (length bs, b) = Ok R' /\ split_ok a (bs ++ [b]) R'.
Proof.
  intros Hb Hlen (Hcount & Hall & Hnth & Hmerge).
  set (axis := length bs) in *. set (k := Z.to_nat b).
  set (n := Np.axis_len axis (Np.shape a)).
  assert (Hk : (0 < k)%nat) by (subst k; lia).
  set (g := fun r : Np.ndarray =>
              map (fun j => Np.slice_axis r axis (part_offset n k j)
                                          (part_offset n k (S j)))
                  (seq 0 k)).
  rewrite Forall_forall in Hall.
  assert (Hsplit : mapM (fun r => Np.array_split r b axis) R = Ok (map g R)).
  { apply mapM_ok. intros r Hr. destruct (Hall r Hr) as (Hwf & Hnd & Hsh).
    rewrite array_split_eq by (lia || congruence).
    rewrite Hsh by (subst axis; lia). reflexivity. }
  assert (Hg : Forall (fun p => length p = k) (map g R)).
  { apply Forall_map, Forall_forall. intros r _. unfold g.
    now rewrite length_map, length_seq. }
  exists (concat (map g R)). split.
  { unfold block_split_step. rewrite Hsplit. reflexivity. }
  unfold split_ok. split; [|split; [|split]].
  - rewrite (length_concat_uniform k) by assumption.
    rewrite length_map, fold_right_mul_snoc, <- Hcount. subst k. lia.
  - apply Forall_forall. intros x Hx.
    apply in_concat in Hx as (p & Hp & Hx).
    apply in_map_iff in Hp as (r & <- & Hr).
    apply in_map_iff in Hx as (j & <- & Hj). apply in_seq in Hj.
    destruct (Hall r Hr) as (Hwf & Hnd & Hsh).
    assert (Hax : (axis < Np.ndim r)%nat) by lia.
    repeat split.
    + apply wf_slice_axis; try assumption.
      rewrite Hsh by (subst axis; lia). fold n.
      rewrite <- (part_offset_last n k Hk) at 2.
      apply part_offset_mono. lia.
    + now rewrite ndim_slice_axis.
    + intros ax Hge. rewrite length_app in Hge. simpl in Hge.
      rewrite shape_slice_axis. unfold Np.axis_len at 1.
      rewrite nth_set_axis_other by (exact Hax || (subst axis; lia)).
      apply Hsh. subst axis. lia.
  - intros idx' Hidx'. rewrite map_app in Hidx'. cbn [map] in Hidx'.
    apply valid_index_snoc in Hidx' as (idx & i & -> & Hidx & Hi).
    pose proof (valid_index_length _ _ Hidx) as Hlenidx.
    rewrite map_app. cbn [map]. fold k.
    unfold ravel, block_at.
    rewrite ravel_from_snoc, block_at_from_snoc by assumption.
    rewrite length_map. cbn [Nat.add]. fold axis n.
    rewrite (nth_error_concat_uniform k) by assumption.
    specialize (Hnth idx Hidx). fold (ravel (map Z.to_nat bs) idx).
    fold (block_at a (map Z.to_nat bs) idx).
    rewrite (nth_error_nth (map g R) _ [] (x := g (block_at a (map Z.to_nat bs) idx)))
      by (rewrite nth_error_map, Hnth; reflexivity).
    unfold g. rewrite nth_error_map, nth_error_seq.
    destruct (Nat.ltb_spec i k); [reflexivity | lia].
  - rewrite rev_app_distr. cbn [rev app]. rewrite enumerate_cons.
    rewrite length_app. cbn [length]. rewrite Nat.add_1_r. cbn [foldM].
    unfold block_merge_step at 1.
    replace (S (length bs) - 0 - 1)%nat with axis by (subst axis; lia).
    rewrite chunks_concat by assumption. cbn [bind].
    rewrite mapM_map_inverse.
    + rewrite foldM_merge_shift. exact Hmerge.
    + intros r Hr. destruct (Hall r Hr) as (Hwf & Hnd & Hsh).
      unfold g, n. rewrite <- (Hsh axis) by (subst axis; lia).
      apply concatenate_parts; (assumption || lia).
Qed.

Lemma Forall_snoc_inv {A} (P : A -> Prop) (l : list A) (x : A) :
  Forall P (l ++ [x]) -> Forall P l /\ P x.
Proof.
  intros H. apply Forall_app in H as [H1 H2]. split; [assumption|].
  now inversion H2.
Qed.

(** The loop of [block_split] succeeds, and [split_ok] describes its
    result. *)
Lemma split_loop_ok (a : Np.ndarray) (bs : list Z) :
  Np.wf a -> Forall (fun b => 1 <= b) bs -> (length bs <= Np.ndim a)%nat ->
  exists R, foldM block_split_step (enumerate bs) [a] = Ok R
            /\ split_ok a bs R.
Proof.
  intros Hwf. induction bs as [|b bs IH] using rev_ind; intros Hpos Hlen.
  - exists [a]. split; [reflexivity | now apply split_ok_nil].
  - apply Forall_snoc_inv in Hpos as [Hpos Hb].
    rewrite length_app in Hlen. simpl in Hlen.
    destruct (IH Hpos ltac:(lia)) as (R & HR & Hok).
    destruct (split_step_ok a bs b R ltac:(lia) ltac:(lia) Hok)
      as (R' & Hstep & Hok').
    exists R'. split; [|assumption].
    rewrite enumerate_snoc, foldM_app, HR. cbn [bind foldM].
    now rewrite Hstep.
Qed.

Lemma block_split_ok (a : Np.ndarray) (blocks : list Z) :
  Np.wf a -> length blocks = Np.ndim a -> Forall (fun b => 1 <= b) blocks ->
  exists parts, block_split a blocks = Ok parts /\ split_ok a blocks parts.
Proof.
  intros Hwf Hlen Hpos. unfold block_split.
  rewrite Hlen, Nat.eqb_refl. cbn [negb].
  apply split_loop_ok; (assumption || lia).
Qed.

Lemma wrap64_small (z : Z) : - 2 ^ 63 <= z < 2 ^ 63 -> wrap64 z = z.
Proof. intros H. unfold wrap64. rewrite Z.mod_small; lia. Qed.

Lemma wrap64_mul_l (a b : Z) : wrap64 (wrap64 a * b) = wrap64 (a * b).
Proof.
  unfold wrap64. f_equal.
  pose proof (Z.div_mod (a + 2 ^ 63) (2 ^ 64) ltac:(lia)) as H.
  replace ((a + 2 ^ 63) mod 2 ^ 64 - 2 ^ 63)
    with (a + - ((a + 2 ^ 63) / 2 ^ 64) * 2 ^ 64) by lia.
  replace ((a + - ((a + 2 ^ 63) / 2 ^ 64) * 2 ^ 64) * b + 2 ^ 63)
    with (a * b + 2 ^ 63 + (- ((a + 2 ^ 63) / 2 ^ 64) * b) * 2 ^ 64) by ring.
  apply Z.mod_add. lia.
Qed.

(** The product accumulated in [int64] is the reduction of the exact
    product. *)
Lemma prod_int64_wrap (l : list Z) :
  Np.prod_int64 l = wrap64 (fold_right Z.mul 1 l).
Proof.
  assert (H : forall a,
             fold_left (fun acc b => wrap64 (acc * b)) l (wrap64 a)
             = wrap64 (a * fold_right Z.mul 1 l)).
  { induction l as [|b l IH]; intros a; cbn [fold_left fold_right].
    - now rewrite Z.mul_1_r.
    - rewrite wrap64_mul_l, IH. f_equal. ring. }
  unfold Np.prod_int64. change 1 with (wrap64 1) at 1.
  rewrite H. f_equal. apply Z.mul_1_l.
Qed.

Lemma block_merge_ok (a : Np.ndarray) (blocks : list Z)
      (parts : list Np.ndarray) :
  split_ok a blocks parts -> block_merge parts blocks = Ok a.
Proof.
  intros (Hcount & _ & _ & Hmerge). unfold block_merge, len.
  rewrite prod_int64_wrap, Hcount, Z.eqb_refl. cbn [negb].
  rewrite Hmerge. reflexivity.
Qed.

(** Every position of the flat list is the position of a multi-index. *)
Lemma ravel_onto (spec : list nat) (p : nat) :
  (p < Np.prod spec)%nat ->
  exists idx, valid_index spec idx /\ ravel spec idx = p.
Proof.
  revert p; induction spec as [|k spec IH] using rev_ind; intros p Hp.
  - exists []. split; [constructor|]. simpl in Hp. unfold ravel. simpl. lia.
  - rewrite prod_app in Hp. simpl in Hp. rewrite Nat.mul_1_r in Hp.
    assert (Hk : (0 < k)%nat) by nia.
    destruct (IH (p / k)%nat) as (idx & Hidx & Hrav).
    { apply Nat.Div0.div_lt_upper_bound. lia. }
    exists (idx ++ [(p mod k)%nat])%list. split.
    + apply Forall2_app; [assumption|]. constructor; [|constructor].
      apply Nat.mod_upper_bound. lia.
    + unfold ravel in *.
      rewrite ravel_from_snoc by now apply valid_index_length.
      rewrite Hrav. pose proof (Nat.div_mod_eq p k). lia.
Qed.

Lemma prod_spec (bs : list Z) :
  Forall (fun b => 1 <= b) bs ->
  Z.of_nat (Np.prod (map Z.to_nat bs)) = fold_right Z.mul 1 bs.
Proof.
  induction 1 as [|b bs Hb _ IH]; [reflexivity|].
  cbn [map].
  change (Np.prod (Z.to_nat b :: map Z.to_nat bs))
    with (Z.to_nat b * Np.prod (map Z.to_nat bs))%nat.
  cbn [fold_right]. rewrite Nat2Z.inj_mul, IH. lia.
Qed.

(** A list laid out in row-major order of the blocks is the list
    [block_split] returns. *)
Lemma row_major_unique (a : Np.ndarray) (blocks : list Z)
      (parts l : list Np.ndarray) :
  Forall (fun b => 1 <= b) blocks ->
  split_ok a blocks parts ->
  length l = Np.prod (map Z.to_nat blocks) ->
  (forall idx, valid_index (map Z.to_nat blocks) idx ->
               nth_error l (ravel (map Z.to_nat blocks) idx)
               = Some (block_at a (map Z.to_nat blocks) idx)) ->
  l = parts.
Proof.
  intros Hpos (Hcount & _ & Hnth & _) Hlen Hl.
  rewrite <- prod_spec in Hcount by assumption.
  apply Nat2Z.inj in Hcount.
  apply nth_error_ext. intros p.
  destruct (Nat.lt_ge_cases p (Np.prod (map Z.to_nat blocks))) as [Hp|Hp].
  - destruct (ravel_onto _ _ Hp) as (idx & Hidx & <-).
    now rewrite Hl, Hnth.
  - transitivity (@None Np.ndarray); [|symmetry];
      apply nth_error_None; lia.
Qed.

Lemma skipn_axis (axis : nat) (s : list nat) :
  (axis < length s)%nat ->
  skipn axis s = Np.axis_len axis s :: skipn (S axis) s.
Proof.
  revert s; induction axis as [|axis IH]; intros [|x s] H; simpl in *;
    try lia.
  - reflexivity.
  - apply IH. lia.
Qed.

(** The shape of a block. *)
Lemma shape_block_at_from (orig : list nat) (spec idx : list nat)
      (axis : nat) (a : Np.ndarray) :
  valid_index spec idx ->
  length (Np.shape a) = length orig ->
  skipn axis (Np.shape a) = skipn axis orig ->
  (axis + length spec = length orig)%nat ->
  Np.shape (block_at_from axis orig a spec idx)
  = (firstn axis (Np.shape a) ++ block_shape (skipn axis orig) spec idx)%list.
Proof.
  intros Hidx; revert axis a.
  induction Hidx as [|i k idx spec Hi Hidx IH]; intros axis a Hlen Hskip Hax.
  - simpl in *. rewrite Nat.add_0_r in Hax.
    rewrite skipn_all2 by lia. simpl. rewrite app_nil_r.
    symmetry. apply firstn_all2. lia.
  - simpl in Hax. cbn [block_at_from].
    assert (Hlt : (axis < length (Np.shape a))%nat) by lia.
    rewrite IH.
    + rewrite shape_slice_axis.
      replace (firstn (S axis) (Np.set_axis axis _ (Np.shape a)))
        with (firstn axis (Np.shape a)
                ++ [part_size (Np.axis_len axis orig) k i])%list.
      * rewrite <- app_assoc. f_equal.
        rewrite (skipn_axis axis orig) by lia. reflexivity.
      * unfold Np.set_axis.
        rewrite firstn_app, length_firstn, Nat.min_l by lia.
        rewrite firstn_firstn, Nat.min_r by lia.
        replace (S axis - axis)%nat with 1%nat by lia.
        rewrite part_offset_S. cbn [firstn]. do 3 f_equal. lia.
    + rewrite shape_slice_axis, length_set_axis; assumption.
    + rewrite shape_slice_axis, skipn_set_axis by assumption.
      rewrite <- (skipn_skipn 1 axis), Hskip, skipn_skipn. reflexivity.
    + lia.
Qed.

Lemma shape_block_at (a : Np.ndarray) (spec idx : list nat) :
  valid_index spec idx -> length spec = Np.ndim a ->
  Np.shape (block_at a spec idx) = block_shape (Np.shape a) spec idx.
Proof.
  intros Hidx Hlen. unfold block_at.
  rewrite shape_block_at_from; auto.
Qed.

(** The sizes of the parts: leading parts are the larger ones, and no
    two differ by more than one row. *)
Lemma part_size_order (n k i j : nat) :
  (i <= j)%nat ->
  (part_size n k j <= part_size n k i <= part_size n k j + 1)%nat.
Proof.
  intros H. unfold part_size.
  destruct (Nat.ltb_spec i (n mod k)), (Nat.ltb_spec j (n mod k)); lia.
Qed.

(** ** Datasets: selection along a dimension *)

Lemma index_of_lt (d : string) (l : list string) (i : nat) :
  Xr.index_of d l = Some i -> (i < length l)%nat.
Proof.
  revert i; induction l as [|x l IH]; intros i; simpl; [discriminate|].
  destruct (String.eqb d x).
  - intros [= <-]. lia.
  - destruct (Xr.index_of d l); [|discriminate].
    intros [= <-]. specialize (IH _ eq_refl). lia.
Qed.

Lemma var_size_axis (v : Xr.Var) (dim : string) (ax : nat) :
  length (Xr.dims v) = Np.ndim (Xr.values v) ->
  Xr.index_of dim (Xr.dims v) = Some ax ->
  (ax < Np.ndim (Xr.values v))%nat
  /\ Xr.var_size v dim = Some (Np.axis_len ax (Np.shape (Xr.values v))).
Proof.
  intros Hwf Hix. pose proof (index_of_lt _ _ _ Hix) as Hlt.
  split; [lia|]. unfold Xr.var_size. rewrite Hix.
  apply axis_len_nth_error. unfold Np.ndim in Hwf. lia.
Qed.

Lemma var_size_None (v : Xr.Var) (dim : string) :
  Xr.index_of dim (Xr.dims v) = None -> Xr.var_size v dim = None.
Proof. intros H. unfold Xr.var_size. now rewrite H. Qed.

Lemma isel_var_select (dim : string) (start stop : option Z) (n : nat)
      (nv : string * Xr.Var) :
  length (Xr.dims (snd nv)) = Np.ndim (Xr.values (snd nv)) ->
  (forall m, Xr.var_size (snd nv) dim = Some m -> m = n) ->
  Xr.isel_var dim start stop nv
  = Ok (select_var dim (fst (slice_indices start stop n))
                   (snd (slice_indices start stop n)) nv).
Proof.
  intros Hwf Hn. unfold Xr.isel_var, select_var.
  destruct (Xr.index_of dim (Xr.dims (snd nv))) as [ax|] eqn:Hix;
    [|reflexivity].
  destruct (var_size_axis _ _ _ Hwf Hix) as [Hlt Hsz].
  specialize (Hn _ Hsz). unfold Np.getitem_axis.
  rewrite (axis_len_nth_error ax) by exact Hlt. rewrite Hn.
  destruct (slice_indices start stop n) as [lo hi]. reflexivity.
Qed.

(** [isel] with a slice is the selection of the range the slice
    denotes. *)
Lemma isel_select (ds : Xr.Dataset) (dim : string) (n : nat)
      (start stop : option Z) :
  dataset_ok ds -> dim_len ds dim n ->
  Xr.isel ds dim start stop
  = Ok (select_range ds dim (fst (slice_indices start stop n))
                     (snd (slice_indices start stop n))).
Proof.
  intros [_ Hwf] [Hsz Hall]. unfold Xr.isel. rewrite Hsz.
  apply mapM_ok. intros nv Hnv.
  rewrite Forall_forall in Hwf. rewrite Forall_forall in Hall.
  apply isel_var_select; [now apply Hwf | now apply Hall].
Qed.

Lemma select_var_schema (dim : string) (lo hi : nat) (nv : string * Xr.Var) :
  length (Xr.dims (snd nv)) = Np.ndim (Xr.values (snd nv)) ->
  same_schema dim nv (select_var dim lo hi nv).
Proof.
  intros Hwf. unfold same_schema, select_var.
  destruct (Xr.index_of dim (Xr.dims (snd nv))) as [ax|] eqn:Hix.
  - destruct (var_size_axis _ _ _ Hwf Hix) as [Hlt _]. cbn [fst snd Xr.dims Xr.values].
    repeat split.
    + unfold Np.ndim. rewrite shape_slice_axis. now apply length_set_axis.
    + rewrite shape_slice_axis. now apply set_axis_twice.
  - repeat split.
Qed.



Lemma var_size_select (dim : string) (lo hi : nat) (nv : string * Xr.Var) :
  length (Xr.dims (snd nv)) = Np.ndim (Xr.values (snd nv)) ->
  Xr.var_size (snd (select_var dim lo hi nv)) dim
  = match Xr.var_size (snd nv) dim with
    | Some _ => Some (hi - lo)%nat
    | None => None
    end.
Proof.
  intros Hwf. unfold select_var.
  destruct (Xr.index_of dim (Xr.dims (snd nv))) as [ax|] eqn:Hix.
  - destruct (var_size_axis _ _ _ Hwf Hix) as [Hlt Hsz]. rewrite Hsz.
    unfold Xr.var_size. cbn [snd Xr.dims Xr.values]. rewrite Hix.
    rewrite shape_slice_axis.
    rewrite (axis_len_nth_error ax)
      by (rewrite length_set_axis; exact Hlt).
    now rewrite axis_len_set_axis.
  - now rewrite (var_size_None _ _ Hix).
Qed.

Lemma select_dim_len (ds : Xr.Dataset) (dim : string) (n lo hi : nat) :
  dataset_ok ds -> dim_len ds dim n ->
  dim_len (select_range ds dim lo hi) dim (hi - lo).
Proof.
  intros [_ Hwf] [Hsz _]. unfold select_range. split.
  - revert Hsz. induction Hwf as [|[name v] ds Hv Hwf IH]; simpl.
    + discriminate.
    + intros Hsz.
      change (Xr.var_size (snd (select_var dim lo hi (name, v))) dim)
        with (Xr.var_size (snd (select_var dim lo hi (name, v))) dim).
      destruct (select_var dim lo hi (name, v)) as [name' v'] eqn:E.
      pose proof (var_size_select dim lo hi (name, v) Hv) as Hs.
      rewrite E in Hs. cbn [snd] in Hs. rewrite Hs.
      destruct (Xr.var_size v dim); [reflexivity | now apply IH].
  - apply Forall_map. eapply Forall_impl; [|exact Hwf]. cbv beta.
    intros nv Hnv m. rewrite var_size_select by assumption.
    destruct (Xr.var_size (snd nv) dim); congruence.
Qed.

Lemma select_schema (ds : Xr.Dataset) (dim : string) (lo hi : nat) :
  dataset_ok ds ->
  Forall2 (same_schema dim) ds (select_range ds dim lo hi).
Proof.
  intros [_ Hwf]. unfold select_range.
  induction Hwf as [|nv ds Hv Hwf IH]; simpl; constructor; auto.
  now apply select_var_schema.
Qed.

(** ** Datasets: concatenation *)

Lemma Forall2_In_l {A B} (R : A -> B -> Prop) (l : list A) (l' : list B)
      (x : A) :
  Forall2 R l l' -> In x l -> exists y, In y l' /\ R x y.
Proof.
  induction 1 as [|a b l l' Hab _ IH]; intros Hx; [contradiction|].
  destruct Hx as [<-|Hx].
  - exists b. split; [now left | assumption].
  - destruct (IH Hx) as (y & Hy & Hr). exists y. split; [now right|assumption].
Qed.

Lemma Forall2_In_r {A B} (R : A -> B -> Prop) (l : list A) (l' : list B)
      (y : B) :
  Forall2 R l l' -> In y l' -> exists x, In x l /\ R x y.
Proof.
  induction 1 as [|a b l l' Hab _ IH]; intros Hy; [contradiction|].
  destruct Hy as [<-|Hy].
  - exists a. split; [now left | assumption].
  - destruct (IH Hy) as (x & Hx & Hr). exists x. split; [now right|assumption].
Qed.

Lemma schema_names (dim : string) (base p : Xr.Dataset) :
  Forall2 (same_schema dim) base p -> map fst p = map fst base.
Proof.
  induction 1 as [|nb nv base p (Hn & _) _ IH]; [reflexivity|].
  simpl. now rewrite Hn, IH.
Qed.

Lemma lookup_In (ds : Xr.Dataset) (k : string) (v : Xr.Var) :
  NoDup (map fst ds) -> In (k, v) ds -> Xr.lookup ds k = Some v.
Proof.
  induction ds as [|[k0 v0] ds IH]; intros Hnd Hin; [contradiction|].
  simpl in Hnd. inversion Hnd as [|? ? Hnot Hnd']; subst.
  simpl. destruct Hin as [[= -> ->]|Hin].
  - now rewrite String.eqb_refl.
  - destruct (String.eqb_spec k k0) as [->|Hne].
    + exfalso. apply Hnot. now apply (in_map fst _ (k0, v)).
    + now apply IH.
Qed.

Lemma mapM_Forall2 {A B} (f : A -> res B) (R : A -> B -> Prop) (l : list A) :
  (forall x, In x l -> exists y, f x = Ok y /\ R x y) ->
  exists ys, mapM f l = Ok ys /\ Forall2 R l ys.
Proof.
  induction l as [|x l IH]; intros H.
  - exists []. split; [reflexivity | constructor].
  - destruct (H x (or_introl eq_refl)) as (y & Hy & Hr).
    destruct IH as (ys & Hys & Hrs); [intros z Hz; apply H; now right|].
    exists (y :: ys). split; [|now constructor].
    simpl. now rewrite Hy, Hys.
Qed.

Lemma nth_error_set_axis (ax n : nat) (s : list nat) :
  (ax < length s)%nat -> nth_error (Np.set_axis ax n s) ax = Some n.
Proof.
  intros H. rewrite (axis_len_nth_error ax)
    by (rewrite length_set_axis; assumption).
  now rewrite axis_len_set_axis.
Qed.

Lemma list_sum_map_Forall2 {A} (f : A -> nat) (l : list A) (ns : list nat) :
  Forall2 (fun x n => f x = n) l ns -> list_sum (map f l) = list_sum ns.
Proof.
  induction 1 as [|x n l ns Hx _ IH]; [reflexivity|].
  simpl. now rewrite Hx, IH.
Qed.

Lemma Forall2_impl_In {A B} (R R' : A -> B -> Prop) (l : list A)
      (l' : list B) :
  (forall x y, In x l -> R x y -> R' x y) ->
  Forall2 R l l' -> Forall2 R' l l'.
Proof.
  intros H HR. induction HR as [|x y l l' Hxy _ IH]; constructor.
  - apply H; [now left | assumption].
  - apply IH. intros a b Ha. apply H. now right.
Qed.

Section ConcatVar.
Variables (base : Xr.Dataset) (dim : string).
Variables (first : Xr.Dataset) (rest : list Xr.Dataset) (ns : list nat).
Hypothesis Hbase : dataset_ok base.
Hypothesis Hschema :
  Forall (fun p => Forall2 (same_schema dim) base p) (first :: rest).
Hypothesis Hlens : Forall2 (fun p n => dim_len p dim n) (first :: rest) ns.

Let parts := first :: rest.

(** The variable of [p] that stands where [nb] stands in [base]. *)
Lemma part_var (nb : string * Xr.Var) (p : Xr.Dataset) :
  In nb base -> In p parts ->
  exists v, Xr.lookup p (fst nb) = Some v
            /\ In (fst nb, v) p
            /\ same_schema dim nb (fst nb, v).
Proof.
  intros Hnb Hp. rewrite Forall_forall in Hschema.
  pose proof (Hschema p Hp) as Hsp.
  destruct (Forall2_In_l _ _ _ _ Hsp Hnb) as ([k v] & Hin & Hs).
  assert (k = fst nb) as -> by (destruct Hs as (Hk & _); exact Hk).
  exists v. split; [|split; assumption].
  apply lookup_In; [|assumption].
  rewrite (schema_names _ _ _ Hsp). apply Hbase.
Qed.

Lemma concat_var_ok (nv : string * Xr.Var) :
  In nv first ->
  exists nv', Xr.concat_var parts dim nv = Ok nv'
              /\ concat_post dim (list_sum ns) nv nv'.
Proof.
  intros Hnv. unfold Xr.concat_var, concat_post.
  destruct (Xr.index_of dim (Xr.dims (snd nv))) as [ax|] eqn:Hix.
  2:{ exists nv. repeat split. }
  assert (Hfirst : Forall2 (same_schema dim) base first).
  { rewrite Forall_forall in Hschema. apply Hschema. now left. }
  destruct (Forall2_In_r _ _ _ _ Hfirst Hnv) as (nb & Hnb & Hs).
  destruct Hs as (Hname & Hdims & Hndim & Hshape).
  assert (Hixb : Xr.index_of dim (Xr.dims (snd nb)) = Some ax)
    by (rewrite <- Hdims; exact Hix).
  rewrite Hixb in Hshape.
  assert (Hwfb : length (Xr.dims (snd nb)) = Np.ndim (Xr.values (snd nb))).
  { destruct Hbase as [_ Hwf]. rewrite Forall_forall in Hwf.
    now apply Hwf. }
  assert (Hax : (ax < Np.ndim (Xr.values (snd nb)))%nat).
  { rewrite <- Hwfb. now apply index_of_lt with (d := dim). }
  set (g := fun p : Xr.Dataset =>
              match Xr.lookup p (fst nv) with
              | Some v => Xr.values v
              | None => Xr.values (snd nv)
              end).
  assert (Hg : forall p, In p parts ->
             exists v, Xr.lookup p (fst nv) = Some v
                       /\ In (fst nv, v) p
                       /\ Xr.dims v = Xr.dims (snd nv)
                       /\ Np.ndim (Xr.values v) = Np.ndim (Xr.values (snd nb))
                       /\ Np.set_axis ax 0 (Np.shape (Xr.values v))
                          = Np.set_axis ax 0 (Np.shape (Xr.values (snd nb)))).
  { intros p Hp. destruct (part_var nb p Hnb Hp) as (v & Hl & Hin & Hsv).
    destruct Hsv as (_ & Hd & Hn & Hsh). cbn [snd] in *.
    rewrite Hixb in Hsh. rewrite Hname. exists v.
    repeat split; try assumption. congruence. }
  assert (Hmap : mapM (fun ds =>
                    match Xr.lookup ds (fst nv) with
                    | None =>
                        Raise (ValueError "variable is not present in all datasets")
                    | Some v =>
                        if list_eq_dec string_dec (Xr.dims v) (Xr.dims (snd nv))
                        then Ok (Xr.values v)
                        else Raise (ValueError "inconsistent dimensions")
                    end) parts = Ok (map g parts)).
  { apply mapM_ok. intros p Hp.
    destruct (Hg p Hp) as (v & Hl & _ & Hd & _). unfold g. rewrite Hl.
    now destruct (list_eq_dec string_dec _ _). }
  rewrite Hmap. cbn [bind].
  assert (Hg0 : g first = Xr.values (snd nv)).
  { unfold g. destruct nv as [k v]. cbn [fst snd].
    rewrite (lookup_In first k v); [reflexivity| |assumption].
    rewrite (schema_names _ _ _ Hfirst). apply Hbase. }
  rewrite (concatenate_eq _ (g first)).
  - cbn [bind]. eexists. split; [reflexivity|].
    cbn [fst snd Xr.dims Xr.values Np.shape]. repeat split.
    rewrite nth_error_set_axis
      by (rewrite Hg0; unfold Np.ndim in *; lia).
    f_equal. rewrite map_map. apply list_sum_map_Forall2.
    apply (Forall2_impl_In (fun p n => dim_len p dim n)); [|exact Hlens].
    intros p n Hp [_ Hall].
    destruct (Hg p Hp) as (v & Hl' & Hinv & Hd & Hn & _).
    unfold g. rewrite Hl'. rewrite Forall_forall in Hall.
    apply (Hall (fst nv, v) Hinv). cbn [snd].
    unfold Xr.var_size. rewrite Hd, Hix.
    apply axis_len_nth_error. unfold Np.ndim in *. lia.
  - reflexivity.
  - rewrite Hg0, Hndim. exact Hax.
  - intros x Hx. apply in_map_iff in Hx as (p & <- & Hp).
    destruct (Hg p Hp) as (v & Hl & _ & _ & Hn & _).
    unfold g at 1. rewrite Hl, Hg0. congruence.
  - intros x Hx. apply in_map_iff in Hx as (p & <- & Hp).
    destruct (Hg p Hp) as (v & Hl & _ & _ & _ & Hsh).
    unfold g at 2. rewrite Hl, Hsh, Hg0. now symmetry.
Qed.

End ConcatVar.

Lemma concat_ok (base : Xr.Dataset) (dim : string) (parts : list Xr.Dataset)
      (ns : list nat) :
  dataset_ok base -> parts <> [] ->
  Forall (fun p => Forall2 (same_schema dim) base p) parts ->
  Forall2 (fun p n => dim_len p dim n) parts ns ->
  exists r, Xr.concat parts dim = Ok r /\ Xr.sizes r dim = Ok (list_sum ns).
Proof.
  intros Hbase Hne Hschema Hlens.
  destruct parts as [|first rest]; [congruence|]. unfold Xr.concat.
  destruct (mapM_Forall2 (Xr.concat_var (first :: rest) dim)
              (concat_post dim (list_sum ns)) first) as (r & Hr & Hpost).
  { intros nv Hnv. now apply (concat_var_ok base dim first rest ns). }
  exists r. split; [assumption|].
  inversion Hlens as [|? n0 ? ns' [Hsz _] _]; subst. clear - Hsz Hpost.
  revert Hsz. induction Hpost as [|[k v] [k' v'] l l' Hp _ IH]; simpl.
  - discriminate.
  - destruct Hp as (_ & Hd & Hp). cbn [fst snd] in *.
    unfold Xr.var_size at 1 2. rewrite Hd.
    destruct (Xr.index_of dim (Xr.dims v)) as [ax|].
    + rewrite Hp. destruct (nth_error _ ax); reflexivity.
    + injection Hp as -> ->. exact IH.
Qed.

Lemma schema_ok (base p : Xr.Dataset) (dim : string) :
  dataset_ok base -> Forall2 (same_schema dim) base p -> dataset_ok p.
Proof.
  intros [Hnd Hwf] Hs. split.
  - now rewrite (schema_names _ _ _ Hs).
  - clear Hnd. induction Hs as [|nb nv base p (_ & Hd & Hn & _) _ IH];
      constructor.
    + inversion Hwf; subst. congruence.
    + apply IH. now inversion Hwf.
Qed.

Lemma schema_trans (dim : string) (base p q : Xr.Dataset) :
  Forall2 (same_schema dim) base p -> Forall2 (same_schema dim) p q ->
  Forall2 (same_schema dim) base q.
Proof.
  intros H; revert q. induction H as [|nb nv base p Hbp _ IH]; intros q Hq;
    inversion Hq as [|? nq ? q' Hpq Hrest]; subst; constructor.
  - destruct Hbp as (Hn & Hd & Hr & Hs), Hpq as (Hn' & Hd' & Hr' & Hs').
    unfold same_schema. rewrite Hd in Hs'.
    repeat split; try congruence.
    destruct (Xr.index_of dim (Xr.dims (snd nb))); congruence.
  - now apply IH.
Qed.

(** A selection along [dim] out of a chunk of [base] is a chunk of
    [base]. *)
Lemma chunk_select (base p : Xr.Dataset) (dim : string) (lo hi : nat) :
  dataset_ok base -> chunk_of base dim p ->
  chunk_of base dim (select_range p dim lo hi).
Proof.
  intros Hbase [Hs [n Hn]].
  pose proof (schema_ok _ _ _ Hbase Hs) as Hp. split.
  - eapply schema_trans; [exact Hs | now apply select_schema].
  - exists (hi - lo)%nat. now apply select_dim_len with (n := n).
Qed.

Lemma chunk_isel (base p : Xr.Dataset) (dim : string)
      (start stop : option Z) :
  dataset_ok base -> chunk_of base dim p ->
  exists q, Xr.isel p dim start stop = Ok q /\ chunk_of base dim q.
Proof.
  intros Hbase Hp. pose proof Hp as [Hs [n Hn]].
  pose proof (schema_ok _ _ _ Hbase Hs) as Hok.
  eexists. split; [now apply isel_select with (n := n)|].
  now apply chunk_select.
Qed.

Lemma schema_refl (dim : string) (ds : Xr.Dataset) :
  Forall2 (same_schema dim) ds ds.
Proof.
  induction ds as [|nv ds IH]; constructor; [|assumption].
  unfold same_schema. repeat split.
  now destruct (Xr.index_of dim (Xr.dims (snd nv))).
Qed.

Lemma Forall_exists_Forall2 {A B} (R : A -> B -> Prop) (l : list A) :
  Forall (fun x => exists y, R x y) l -> exists l', Forall2 R l l'.
Proof.
  induction 1 as [|x l [y Hy] _ [l' IH]].
  - exists []. constructor.
  - exists (y :: l'). now constructor.
Qed.

Lemma concat_chunks (base : Xr.Dataset) (dim : string)
      (parts : list Xr.Dataset) :
  dataset_ok base -> parts <> [] -> Forall (chunk_of base dim) parts ->
  exists r, Xr.concat parts dim = Ok r.
Proof.
  intros Hbase Hne Hall.
  destruct (Forall_exists_Forall2 (fun p n => dim_len p dim n) parts)
    as (ns & Hns).
  { eapply Forall_impl; [|exact Hall]. now intros p [_ Hn]. }
  destruct (concat_ok base dim parts ns Hbase Hne) as (r & Hr & _);
    [|assumption|now exists r].
  eapply Forall_impl; [|exact Hall]. now intros p [Hs _].
Qed.

Lemma In_take_range {A} (lo hi : nat) (l : list A) (x : A) :
  In x (take_range lo hi l) -> In x l.
Proof.
  unfold take_range. intros H.
  rewrite <- (firstn_skipn lo l). apply in_or_app. right.
  rewrite <- (firstn_skipn (hi - lo) (skipn lo l)). apply in_or_app.
  now left.
Qed.

Lemma In_getslice {A} (l : list A) (start stop : option Z) (x : A) :
  In x (getslice l start stop) -> In x l.
Proof.
  unfold getslice. destruct (slice_indices _ _ _). apply In_take_range.
Qed.

Lemma getitem_first {A} (x : A) (l : list A) : getitem (x :: l) 0 = Ok x.
Proof. reflexivity. Qed.

Lemma getitem_last {A} (l : list A) :
  l <> [] -> exists x, getitem l (-1) = Ok x /\ In x l.
Proof.
  intros Hne. unfold getitem.
  destruct (Z.ltb_spec (-1) 0); [|lia].
  assert (Hlen : (0 < length l)%nat) by (destruct l; simpl; [congruence|lia]).
  destruct (Z.ltb_spec (-1 + Z.of_nat (length l)) 0); [lia|].
  destruct (nth_error l (Z.to_nat (-1 + Z.of_nat (length l)))) as [x|] eqn:E.
  - exists x. split; [reflexivity|]. now apply nth_error_In in E.
  - apply nth_error_None in E. lia.
Qed.

(** [xr_merge] returns a dataset for every non-empty list of chunks of
    one dataset, whatever the buffer. *)
Lemma xr_merge_chunks (base : Xr.Dataset) (dim : string)
      (parts : list Xr.Dataset) (buffer : Z) :
  dataset_ok base -> parts <> [] -> Forall (chunk_of base dim) parts ->
  exists r, xr_merge parts dim buffer = Ok r.
Proof.
  intros Hbase Hne Hall. unfold xr_merge.
  destruct (0 <? buffer).
  2:{ cbn [bind]. now apply concat_chunks with (base := base). }
  rewrite Forall_forall in Hall.
  destruct parts as [|first rest] eqn:Eparts; [congruence|].
  rewrite getitem_first. cbn [bind]. rewrite <- Eparts in *.
  assert (Hfirst : In first parts) by (rewrite Eparts; now left).
  destruct (chunk_isel base first dim None (Some (- buffer)) Hbase
              (Hall _ Hfirst)) as (pf & -> & Hpf).
  cbn [bind].
  destruct (mapM_Forall2
              (fun ds => Xr.isel ds dim (Some buffer) (Some (- buffer)))
              (fun _ q => chunk_of base dim q)
              (getslice parts (Some 1) (Some (-1)))) as (mid & -> & Hmid).
  { intros p Hp. apply chunk_isel; [assumption|].
    apply Hall. now apply In_getslice in Hp. }
  cbn [bind].
  destruct (getitem_last parts Hne) as (last & -> & Hlast). cbn [bind].
  destruct (chunk_isel base last dim (Some buffer) None Hbase
              (Hall _ Hlast)) as (pe & -> & Hpe).
  cbn [bind]. apply concat_chunks with (base := base); [assumption| |].
  - discriminate.
  - constructor; [assumption|]. apply Forall_app. split.
    + clear - Hmid. induction Hmid; constructor; assumption.
    + now constructor.
Qed.

(** ** [xr_split] *)

(** Rounding to nearest moves a quotient by at most one half. *)
Lemma div_nearest_even_bounds (a b : Z) :
  0 < b ->
  2 * a - b <= 2 * b * div_nearest_even a b <= 2 * a + b.
Proof.
  intros Hb. unfold div_nearest_even.
  pose proof (Z.div_mod a b ltac:(lia)) as Hdm.
  pose proof (Z.mod_pos_bound a b Hb) as Hr.
  destruct (Z.compare_spec (2 * (a mod b)) b) as [E|E|E];
    [destruct (Z.even (a / b))| |]; nia.
Qed.

(** [2 ^ log2_quot a b <= a / b], cleared of fractions. *)
Lemma log2_quot_spec (a b : Z) :
  0 < a -> 0 < b ->
  b * 2 ^ Z.max (log2_quot a b) 0 <= a * 2 ^ Z.max (- log2_quot a b) 0.
Proof.
  intros Ha Hb. unfold log2_quot.
  set (k := Z.log2 a - Z.log2 b).
  destruct (Z.ltb_spec (a * 2 ^ Z.max (- k) 0) (b * 2 ^ Z.max k 0)) as [_|H];
    [|exact H].
  destruct (Z.log2_spec a Ha) as [Ha1 _].
  destruct (Z.log2_spec b Hb) as [_ Hb2].
  pose proof (Z.log2_nonneg a). pose proof (Z.log2_nonneg b).
  destruct (Z.le_gt_cases 1 k) as [Hk|Hk].
  - rewrite (Z.max_l (k - 1)), (Z.max_r (- (k - 1))) by lia.
    rewrite Z.pow_0_r, Z.mul_1_r.
    assert (E : 2 ^ Z.log2 a = 2 ^ Z.succ (Z.log2 b) * 2 ^ (k - 1)).
    { rewrite <- Z.pow_add_r by lia. f_equal. lia. }
    assert (0 < 2 ^ (k - 1)) by (apply Z.pow_pos_nonneg; lia).
    nia.
  - rewrite (Z.max_r (k - 1)), (Z.max_l (- (k - 1))) by lia.
    rewrite Z.pow_0_r, Z.mul_1_r.
    assert (E : 2 ^ Z.succ (Z.log2 b) = 2 ^ Z.log2 a * 2 ^ (- (k - 1))).
    { rewrite <- Z.pow_add_r by lia. f_equal. lia. }
    assert (0 < 2 ^ (- (k - 1))) by (apply Z.pow_pos_nonneg; lia).
    nia.
Qed.

(** Below [2 ^ 53] the rounding of the quotient does not reach the next
    integer, and a divisor below [2 ^ 1075] does not flush it to zero:
    the chunk size is the ceiling of the exact quotient. *)
Lemma ceil_div_ceiling (n d : Z) :
  0 <= n < 2 ^ 53 -> 0 < d < 2 ^ 1075 ->
  ceil_div n d = Ok (ceiling n d).
Proof.
  intros Hn Hd. unfold ceil_div.
  destruct (Z.eqb_spec d 0); [lia|]. f_equal.
  unfold truediv. rewrite (Z.abs_eq n), (Z.abs_eq d) by lia.
  destruct (Z.eqb_spec n 0) as [->|Hn0].
  { unfold ceil, ceiling. cbn [expo mant]. change (0 <=? 0) with true.
    cbv iota. rewrite Z.div_small by lia. reflexivity. }
  rewrite (Z.sgn_pos n), (Z.sgn_pos d) by lia.
  pose proof (log2_quot_spec n d ltac:(lia) ltac:(lia)) as Hk.
  set (k := log2_quot n d) in *.
  set (B := 2 ^ 53) in *. set (U := 2 ^ 1075) in *.
  assert (Hk52 : k <= 52).
  { destruct (Z.le_gt_cases k 52) as [|Hgt]; [assumption|exfalso].
    rewrite (Z.max_l k), (Z.max_r (- k)), Z.pow_0_r in Hk by lia.
    assert (B <= 2 ^ k) by (apply Z.pow_le_mono_r; lia). nia. }
  set (e := Z.max (k - 52) (-1074)).
  assert (He : e <= 0) by lia.
  rewrite (Z.max_l (- e)), (Z.max_r e), Z.pow_0_r, (Z.mul_1_r d) by lia.
  set (t := 2 ^ (- e)).
  assert (Ht : 0 < t) by (apply Z.pow_pos_nonneg; lia).
  assert (Htd : d < 2 * t).
  { unfold t, e. destruct (Z.le_gt_cases (-1074) (k - 52)) as [Hn1|Hn1].
    - rewrite Z.max_l by lia.
      destruct (Z.le_gt_cases 0 k) as [Hk0|Hk0].
      + rewrite (Z.max_l k), (Z.max_r (- k)), Z.pow_0_r in Hk by lia.
        assert (E : B = 2 ^ k * (2 * 2 ^ (- (k - 52)))).
        { unfold B. rewrite <- (Z.pow_succ_r 2), <- Z.pow_add_r by lia.
          f_equal. lia. }
        assert (0 < 2 ^ k) by (apply Z.pow_pos_nonneg; lia).
        apply (Z.mul_lt_mono_pos_l (2 ^ k)); [assumption|].
        rewrite <- E. rewrite Z.mul_1_r in Hk.
        generalize dependent (2 ^ k). intros.
        clear E. clearbody B. nia.
      + rewrite (Z.max_r k), (Z.max_l (- k)), Z.pow_0_r in Hk by lia.
        assert (E : 2 * 2 ^ (- (k - 52)) = B * 2 ^ (- k)).
        { unfold B. rewrite <- (Z.pow_succ_r 2), <- Z.pow_add_r by lia.
          f_equal. lia. }
        assert (0 < 2 ^ (- k)) by (apply Z.pow_pos_nonneg; lia).
        rewrite E. nia.
    - rewrite Z.max_r by lia. change (2 * 2 ^ (- -1074)) with U. lia. }
  pose proof (div_nearest_even_bounds (n * t) d ltac:(lia)) as Hm.
  set (m := div_nearest_even (n * t) d) in *.
  unfold ceiling.
  pose proof (Z.div_mod (n + d - 1) d ltac:(lia)) as HK.
  pose proof (Z.mod_pos_bound (n + d - 1) d ltac:(lia)) as HKr.
  set (K := (n + d - 1) / d) in *.
  assert (Hlo : (K - 1) * t < m) by nia.
  assert (Hhi : m <= K * t) by nia.
  unfold ceil. cbn [mant expo]. rewrite !Z.mul_1_l.
  destruct (Z.leb_spec 0 e).
  - assert (He0 : e = 0) by lia.
    assert (Ht1 : t = 1) by (unfold t; now rewrite He0).
    rewrite He0, Z.pow_0_r. rewrite Ht1 in Hlo, Hhi. lia.
  - fold t.
    assert (Hq : - m / t = - K)
      by (symmetry; apply Z.div_unique with (r := K * t - m); lia).
    lia.
Qed.

Lemma ceiling_bounds (n d : Z) :
  0 < d -> (ceiling n d - 1) * d < n <= ceiling n d * d.
Proof.
  intros Hd. unfold ceiling.
  pose proof (Z.div_mod (n + d - 1) d ltac:(lia)).
  pose proof (Z.mod_pos_bound (n + d - 1) d Hd).
  nia.
Qed.

Lemma concat_all_nil {A} (l : list (list A)) :
  Forall (fun b => b = []) l -> concat l = [].
Proof. induction 1 as [|b l -> _ IH]; [reflexivity | exact IH]. Qed.

Lemma slice_axis_empty (a : Np.ndarray) (ax lo hi : nat) :
  (hi <= lo)%nat ->
  Np.slice_axis a ax lo hi
  = {| Np.shape := Np.set_axis ax 0 (Np.shape a); Np.data := [] |}.
Proof.
  intros H. apply ndarray_eq; cbn [Np.shape Np.data Np.slice_axis].
  - f_equal. lia.
  - apply concat_all_nil, Forall_map, Forall_forall. intros b _.
    unfold take_range.
    replace (hi * Np.inner ax (Np.shape a) - lo * Np.inner ax (Np.shape a))%nat
      with 0%nat by nia.
    reflexivity.
Qed.

Lemma select_range_empty (ds : Xr.Dataset) (dim : string) (lo lo' hi : nat) :
  (hi <= lo)%nat -> (hi <= lo')%nat ->
  select_range ds dim lo hi = select_range ds dim lo' hi.
Proof.
  intros H H'. unfold select_range. apply map_ext. intros nv.
  unfold select_var. destruct (Xr.index_of dim (Xr.dims (snd nv))); auto.
  now rewrite !slice_axis_empty.
Qed.

(** [isel] with non-negative bounds selects the range between them. *)
Lemma isel_range (ds : Xr.Dataset) (dim : string) (n : nat) (low high : Z) :
  dataset_ok ds -> dim_len ds dim n ->
  0 <= low -> 0 <= high <= Z.of_nat n ->
  Xr.isel ds dim (Some low) (Some high)
  = Ok (select_range ds dim (Z.to_nat low) (Z.to_nat high)).
Proof.
  intros Hok Hn Hlow Hhigh. rewrite (isel_select ds dim n) by assumption.
  f_equal. unfold slice_indices, clamp. cbn [fst snd].
  destruct (Z.ltb_spec low 0); [lia|].
  destruct (Z.ltb_spec high 0); [lia|].
  rewrite (Z.min_l high) by lia.
  destruct (Z.le_gt_cases low (Z.of_nat n)).
  - now rewrite Z.min_l by lia.
  - rewrite Z.min_r by lia. apply select_range_empty; lia.
Qed.


Lemma In_range (stop i : Z) : In i (range stop) -> 0 <= i < stop.
Proof.
  unfold range. intros H. apply in_map_iff in H as (j & <- & Hj).
  apply in_seq in Hj. lia.
Qed.

Lemma length_range (stop : Z) : 0 <= stop -> Z.of_nat (length (range stop)) = stop.
Proof. intros H. unfold range. rewrite length_map, length_seq. lia. Qed.

(** The chunks [xr_split] yields for the chunk size it computes,
    whatever that is. *)
Lemma xr_split_chunksize (ds : Xr.Dataset) (dim : string) (n : nat)
      (chunks buffer : Z) :
  dataset_ok ds -> dim_len ds dim n -> chunks <> 0 ->
  xr_split ds dim chunks buffer
  = Ok (map (fun i =>
               let cs := ceil (truediv (Z.of_nat n) chunks) in
               let r := slice_indices
                          (Some (chunk_low cs buffer i))
                          (Some (chunk_high cs buffer (Z.of_nat n) i)) n in
               select_range ds dim (fst r) (snd r))
            (range chunks)).
Proof.
  intros Hok Hn Hc. unfold xr_split, ceil_div.
  destruct (Hn) as [Hsz _]. rewrite Hsz. cbn [bind].
  destruct (Z.eqb_spec chunks 0); [contradiction|]. cbn [bind].
  apply mapM_ok. intros i _. cbv zeta. now apply isel_select.
Qed.

(** The chunks [xr_split] yields, in closed form, where the chunk size
    is computed exactly. *)
Lemma xr_split_eq (ds : Xr.Dataset) (dim : string) (n : nat)
      (chunks buffer : Z) :
  dataset_ok ds -> dim_len ds dim n -> 1 <= chunks -> 0 <= buffer ->
  Z.of_nat n < 2 ^ 53 -> chunks < 2 ^ 1075 ->
  xr_split ds dim chunks buffer
  = Ok (map (fun i =>
               select_range ds dim
                 (Z.to_nat (Z.max (i * ceiling (Z.of_nat n) chunks - buffer) 0))
                 (Z.to_nat (Z.min ((i + 1) * ceiling (Z.of_nat n) chunks + buffer)
                                  (Z.of_nat n))))
            (range chunks)).
Proof.
  intros Hok Hn Hc Hb Hn53 Hcmax. unfold xr_split.
  destruct Hn as [Hsz Hall]. rewrite Hsz. cbn [bind].
  rewrite ceil_div_ceiling by (split; (assumption || lia)). cbn [bind].
  apply mapM_ok. intros i Hi. apply In_range in Hi.
  unfold chunk_low, chunk_high.
  pose proof (ceiling_bounds (Z.of_nat n) chunks ltac:(lia)).
  apply isel_range with (n := n); try assumption; [now split|lia|].
  assert (0 <= ceiling (Z.of_nat n) chunks) by nia.
  nia.
Qed.

(** ** The dispatcher *)

Lemma mapMM_delayed_call (l : list Xr.Dataset) (e : Engine) :
  mapMM delayed_call l e = (Ok (map Call l), (e + length l)%nat).
Proof.
  revert e; induction l as [|x l IH]; intros e; simpl.
  - unfold ret. now rewrite Nat.add_0_r.
  - unfold bindM at 1. unfold delayed_call at 1.
    unfold bindM at 1. rewrite IH. unfold ret.
    f_equal. lia.
Qed.

(** Fail fast: when [dim not in ds] the wrapper raises before anything
    is created on the engine. *)
Lemma wrapper_fail_fast (fn : Xr.Dataset -> res Xr.Dataset) (dim : string)
      (chunks : Z) (merge : bool) (buffer : Z) (compute : bool)
      (ds : Xr.Dataset) (e : Engine) :
  Xr.contains ds dim = false ->
  wrapper fn dim chunks merge buffer compute ds e
  = (Raise (no_dimension dim), e).
Proof. intros H. unfold wrapper. rewrite H. reflexivity. Qed.


(** ** The round trip without buffer *)



Lemma select_var_some (dim : string) (lo hi : nat) (nv : string * Xr.Var)
      (ax : nat) :
  Xr.index_of dim (Xr.dims (snd nv)) = Some ax ->
  select_var dim lo hi nv
  = (fst nv, {| Xr.dims := Xr.dims (snd nv);
                Xr.values := Np.slice_axis (Xr.values (snd nv)) ax lo hi |}).
Proof. intros H. unfold select_var. now rewrite H. Qed.

Lemma select_var_none (dim : string) (lo hi : nat) (nv : string * Xr.Var) :
  Xr.index_of dim (Xr.dims (snd nv)) = None -> select_var dim lo hi nv = nv.
Proof. intros H. unfold select_var. now rewrite H. Qed.





(** * The claims *)

(** ** Blocks of an array *)

(** C2. Block round trip: for every array [a] and every list of block
    counts as long as the rank of [a] with all entries at least 1,
    merging the blocks [block_split] returns gives back [a] itself,
    whether or not the counts divide the axis lengths. *)
Theorem block_round_trip (a : Np.ndarray) (blocks : list Z) :
  Np.wf a -> length blocks = Np.ndim a -> Forall (fun b => 1 <= b) blocks ->
  (parts <- block_split a blocks ;; block_merge parts blocks) = Ok a.
Proof.
  intros Hwf Hlen Hpos.
  destruct (block_split_ok a blocks Hwf Hlen Hpos) as (parts & -> & Hok).
  cbn [bind]. now apply block_merge_ok.
Qed.

Lemma block_round_trip_witness :
  Np.wf a23 /\ length [3; 2] = Np.ndim a23
  /\ Forall (fun b => 1 <= b) [3; 2]
  /\ (parts <- block_split a23 [3; 2] ;; block_merge parts [3; 2]) = Ok a23.
Proof.
  assert (H1 : Np.wf a23) by reflexivity.
  assert (H2 : length [3; 2] = Np.ndim a23) by reflexivity.
  assert (H3 : Forall (fun b => 1 <= b) [3; 2]) by (repeat constructor; lia).
  split; [exact H1|]. split; [exact H2|]. split; [exact H3|].
  exact (block_round_trip a23 [3; 2] H1 H2 H3).
Defined.

(** C7. Uneven partition: [block_split] cuts every axis of length [n]
    into [k] contiguous parts, part [j] starting at [part_offset n k j]
    and having [part_size n k j] rows; the sizes differ by at most one,
    the larger parts come first, the parts cover the axis, and merging
    gives the array back. *)
Theorem uneven_partition (a : Np.ndarray) (blocks : list Z) :
  Np.wf a -> length blocks = Np.ndim a -> Forall (fun b => 1 <= b) blocks ->
  let spec := map Z.to_nat blocks in
  exists parts,
    block_split a blocks = Ok parts
    /\ (forall idx, valid_index spec idx ->
          exists blk,
            nth_error parts (ravel spec idx) = Some blk
            /\ blk = block_at a spec idx
            /\ Np.shape blk = block_shape (Np.shape a) spec idx)
    /\ (forall n k i j, (i <= j)%nat ->
          (part_size n k j <= part_size n k i <= part_size n k j + 1)%nat)
    /\ (forall n k j, (0 < k)%nat ->
          part_offset n k 0 = 0%nat
          /\ part_offset n k (S j)
             = (part_offset n k j + part_size n k j)%nat
          /\ part_offset n k k = n)
    /\ block_merge parts blocks = Ok a.
Proof.
  intros Hwf Hlen Hpos spec.
  destruct (block_split_ok a blocks Hwf Hlen Hpos) as (parts & Hsplit & Hok).
  exists parts. split; [assumption|]. split; [|split; [|split]].
  - intros idx Hidx. destruct Hok as (_ & _ & Hnth & _).
    exists (block_at a spec idx). split; [now apply Hnth|].
    split; [reflexivity|]. apply shape_block_at; [assumption|].
    subst spec. now rewrite length_map.
  - intros n k i j Hij. now apply part_size_order.
  - intros n k j Hk. split; [reflexivity|]. split.
    + apply part_offset_S.
    + now apply part_offset_last.
  - now apply block_merge_ok.
Qed.

Lemma uneven_partition_witness :
  exists parts,
    block_split a5 [2] = Ok parts
    /\ (forall idx, valid_index [2%nat] idx ->
          exists blk,
            nth_error parts (ravel [2%nat] idx) = Some blk
            /\ blk = block_at a5 [2%nat] idx
            /\ Np.shape blk = block_shape [5%nat] [2%nat] idx)
    /\ (forall n k i j, (i <= j)%nat ->
          (part_size n k j <= part_size n k i <= part_size n k j + 1)%nat)
    /\ (forall n k j, (0 < k)%nat ->
          part_offset n k 0 = 0%nat
          /\ part_offset n k (S j)
             = (part_offset n k j + part_size n k j)%nat
          /\ part_offset n k k = n)
    /\ block_merge parts [2] = Ok a5.
Proof.
  apply (uneven_partition a5 [2]).
  - reflexivity.
  - reflexivity.
  - repeat constructor. lia.
Defined.

(** The example of the specification: shape [(5,)] with block counts
    [(2,)] gives parts of sizes 3 then 2. *)
Example uneven_five_by_two :
  block_split a5 [2]
  = Ok [Np.mk [3%nat] [10; 11; 12]; Np.mk [2%nat] [13; 14]].
Proof. reflexivity. Qed.

(** C8. Block enumeration order: the flat list [block_split] returns
    holds the block of multi-index [idx] at its row-major position
    [ravel spec idx] (axis 0 slowest, last axis fastest), and
    [block_merge] rebuilds the array from any list laid out in that
    order. *)
Theorem block_enumeration_order (a : Np.ndarray) (blocks : list Z) :
  Np.wf a -> length blocks = Np.ndim a -> Forall (fun b => 1 <= b) blocks ->
  let spec := map Z.to_nat blocks in
  exists parts,
    block_split a blocks = Ok parts
    /\ length parts = Np.prod spec
    /\ (forall idx, valid_index spec idx ->
          nth_error parts (ravel spec idx) = Some (block_at a spec idx))
    /\ (forall l,
          length l = Np.prod spec ->
          (forall idx, valid_index spec idx ->
             nth_error l (ravel spec idx) = Some (block_at a spec idx)) ->
          block_merge l blocks = Ok a).
Proof.
  intros Hwf Hlen Hpos spec.
  destruct (block_split_ok a blocks Hwf Hlen Hpos) as (parts & Hsplit & Hok).
  exists parts. split; [assumption|]. split; [|split].
  - destruct Hok as (Hcount & _). rewrite <- prod_spec in Hcount by assumption.
    now apply Nat2Z.inj in Hcount.
  - now destruct Hok as (_ & _ & Hnth & _).
  - intros l Hl Hnth.
    rewrite (row_major_unique a blocks parts l Hpos Hok Hl Hnth).
    now apply block_merge_ok.
Qed.

Lemma block_enumeration_order_witness :
  exists parts,
    block_split a44 [2; 2] = Ok parts
    /\ length parts = 4%nat
    /\ (forall idx, valid_index [2; 2]%nat idx ->
          nth_error parts (ravel [2; 2]%nat idx)
          = Some (block_at a44 [2; 2]%nat idx))
    /\ (forall l,
          length l = 4%nat ->
          (forall idx, valid_index [2; 2]%nat idx ->
             nth_error l (ravel [2; 2]%nat idx)
             = Some (block_at a44 [2; 2]%nat idx)) ->
          block_merge l [2; 2] = Ok a44).
Proof.
  apply (block_enumeration_order a44 [2; 2]).
  - reflexivity.
  - reflexivity.
  - repeat constructor; lia.
Defined.

(** In two dimensions the position of block [(i, j)] in a grid of
    [k0 x k1] blocks is [i * k1 + j]. *)
Example ravel_two_axes (k0 k1 i j : nat) :
  ravel [k0; k1] [i; j] = (i * k1 + j)%nat.
Proof. reflexivity. Qed.

(** The example of the docstring of [block_split]. *)
Example block_split_docstring :
  block_split a44 [2; 2]
  = Ok [Np.mk [2; 2]%nat [0; 1; 4; 5]; Np.mk [2; 2]%nat [2; 3; 6; 7];
        Np.mk [2; 2]%nat [8; 9; 12; 13]; Np.mk [2; 2]%nat [10; 11; 14; 15]].
Proof. reflexivity. Qed.

(** ** Chunks of a dataset *)

Lemma chunk_of_self (ds : Xr.Dataset) (dim : string) (n : nat) :
  dim_len ds dim n -> chunk_of ds dim ds.
Proof. intros H. split; [apply schema_refl | now exists n]. Qed.

Lemma split_chunks (ds : Xr.Dataset) (dim : string) (n : nat)
      (chunks buffer : Z) (parts : list Xr.Dataset) :
  dataset_ok ds -> dim_len ds dim n -> 1 <= chunks -> 0 <= buffer ->
  xr_split ds dim chunks buffer = Ok parts ->
  Z.of_nat (length parts) = chunks /\ Forall (chunk_of ds dim) parts.
Proof.
  intros Hok Hn Hc Hb.
  rewrite (xr_split_chunksize ds dim n) by (assumption || lia).
  intros [= <-]. split.
  - rewrite length_map. apply length_range. lia.
  - apply Forall_map, Forall_forall. intros i _.
    apply chunk_select; [assumption|]. now apply chunk_of_self with (n := n).
Qed.

Lemma getslice_single {A} (x : A) : getslice [x] (Some 1) (Some (-1)) = [].
Proof. reflexivity. Qed.

Lemma getitem_single_last {A} (x : A) : getitem [x] (-1) = Ok x.
Proof. reflexivity. Qed.

(** What [xr_merge] does with a single dataset and a positive buffer. *)
Lemma merge_single (ds : Xr.Dataset) (dim : string) (n : nat)
        (buffer : Z) :
  dataset_ok ds -> dim_len ds dim n -> 0 < buffer ->
  let trailing_trimmed :=
    select_range ds dim 0 (Z.to_nat (Z.of_nat n - buffer)) in
  let leading_trimmed := select_range ds dim (Z.to_nat buffer) n in
  exists r size,
    xr_merge [ds] dim buffer = Ok r
    /\ Xr.concat [trailing_trimmed; leading_trimmed] dim = Ok r
    /\ Xr.sizes r dim = Ok size
    /\ Z.of_nat size = 2 * Z.max (Z.of_nat n - buffer) 0.
Proof.
  intros Hok Hn Hb trailing_trimmed leading_trimmed.
  assert (Hfirst : Xr.isel ds dim None (Some (- buffer))
                   = Ok trailing_trimmed).
  { rewrite (isel_select ds dim n) by assumption. f_equal.
    unfold slice_indices, clamp. cbn [fst snd].
    destruct (Z.ltb_spec (- buffer) 0); [|lia].
    subst trailing_trimmed. f_equal. lia. }
  assert (Hlast : Xr.isel ds dim (Some buffer) None = Ok leading_trimmed).
  { rewrite (isel_select ds dim n) by assumption. f_equal.
    unfold slice_indices, clamp. cbn [fst snd].
    destruct (Z.ltb_spec buffer 0); [lia|]. subst leading_trimmed.
    destruct (Z.le_gt_cases buffer (Z.of_nat n)).
    - now rewrite Z.min_l by lia.
    - rewrite Z.min_r by lia. apply select_range_empty; lia. }
  destruct (concat_ok ds dim [trailing_trimmed; leading_trimmed]
              [(Z.to_nat (Z.of_nat n - buffer) - 0)%nat;
               (n - Z.to_nat buffer)%nat] Hok)
    as (r & Hr & Hsz).
  { discriminate. }
  { repeat constructor; now apply select_schema. }
  { repeat constructor; now apply select_dim_len with (n := n). }
  exists r. eexists. split; [|split; [exact Hr|split; [exact Hsz|]]].
  - unfold xr_merge. destruct (Z.ltb_spec 0 buffer); [|lia].
    rewrite getitem_first. cbn [bind]. rewrite Hfirst. cbn [bind].
    rewrite getslice_single. cbn [mapM bind].
    rewrite getitem_single_last. cbn [bind]. rewrite Hlast. cbn [bind].
    exact Hr.
  - simpl list_sum. lia.
Qed.

Lemma slice_axis_full (a : Np.ndarray) (ax : nat) :
  Np.wf a -> (ax < Np.ndim a)%nat ->
  Np.slice_axis a ax 0 (Np.axis_len ax (Np.shape a)) = a.
Proof.
  intros Hwf Hax. apply ndarray_eq; cbn [Np.shape Np.data Np.slice_axis].
  - rewrite Nat.sub_0_r. now apply set_axis_same.
  - rewrite <- (concat_blocks_of_all (Np.outer ax (Np.shape a))
                  (Np.axis_len ax (Np.shape a) * Np.inner ax (Np.shape a))
                  (Np.data a)) at 2
      by (rewrite Hwf; now apply prod_split).
    f_equal. rewrite <- (map_id (Np.blocks_of _ _ _)) at 2.
    apply map_ext_in. intros b Hb. simpl Nat.mul.
    apply take_range_all.
    pose proof (rows_lengths a ax Hwf Hax) as Hrows.
    rewrite Forall_forall in Hrows. now apply Hrows.
Qed.

Lemma select_range_full (ds : Xr.Dataset) (dim : string) (n : nat) :
  dataset_ok ds -> values_wf ds -> dim_len ds dim n ->
  select_range ds dim 0 n = ds.
Proof.
  intros [_ Hd] Hwf [_ Hall]. unfold select_range, values_wf in *.
  rewrite <- (map_id ds) at 2. apply map_ext_in. intros nv Hnv.
  rewrite Forall_forall in Hd. rewrite Forall_forall in Hwf.
  rewrite Forall_forall in Hall.
  destruct (Xr.index_of dim (Xr.dims (snd nv))) as [ax|] eqn:Hix.
  - rewrite (select_var_some _ _ _ _ _ Hix).
    destruct (var_size_axis _ _ _ (Hd nv Hnv) Hix) as [Hax Hvs].
    rewrite <- (Hall nv Hnv _ Hvs).
    rewrite slice_axis_full by (try apply Hwf; assumption).
    now destruct nv as [k [d v]].
  - now apply select_var_none.
Qed.

(** A single chunk is the whole dataset, whatever the buffer. *)
Lemma xr_split_single (ds : Xr.Dataset) (dim : string) (n : nat)
      (buffer : Z) :
  dataset_ok ds -> values_wf ds -> dim_len ds dim n -> 0 <= buffer ->
  Z.of_nat n < 2 ^ 53 ->
  xr_split ds dim 1 buffer = Ok [ds].
Proof.
  intros Hok Hwf Hn Hb Hn53.
  rewrite (xr_split_eq ds dim n) by (assumption || reflexivity || lia).
  change (range 1) with [0]. cbn [map].
  assert (Hc : ceiling (Z.of_nat n) 1 = Z.of_nat n).
  { unfold ceiling. rewrite Z.div_1_r. lia. }
  rewrite Hc. do 2 f_equal.
  replace (Z.to_nat (Z.max (0 * Z.of_nat n - buffer) 0)) with 0%nat by lia.
  replace (Z.to_nat (Z.min ((0 + 1) * Z.of_nat n + buffer) (Z.of_nat n)))
    with n by lia.
  now apply select_range_full.
Qed.

(** With one chunk and a buffer below the chunk size, the round trip
    returns a dataset of another size, unless the buffer is exactly
    half the size. *)
Lemma windowed_round_trip_single_chunk_fails (ds : Xr.Dataset)
      (dim : string) (n : nat) (buffer : Z) :
  dataset_ok ds -> values_wf ds -> dim_len ds dim n ->
  Z.of_nat n < 2 ^ 53 ->
  0 < buffer < ceiling (Z.of_nat n) 1 -> Z.of_nat n <> 2 * buffer ->
  exists r,
    (parts <- xr_split ds dim 1 buffer ;; xr_merge parts dim buffer) = Ok r
    /\ r <> ds.
Proof.
  intros Hok Hwf Hn Hn53 Hb Hhalf.
  assert (Hc : ceiling (Z.of_nat n) 1 = Z.of_nat n).
  { unfold ceiling. rewrite Z.div_1_r. lia. }
  rewrite Hc in Hb.
  rewrite (xr_split_single ds dim n) by (assumption || lia). cbn [bind].
  destruct (merge_single ds dim n buffer Hok Hn ltac:(lia))
    as (r & size & Hmerge & _ & Hsz & Hsize).
  exists r. split; [exact Hmerge|]. intros ->.
  destruct Hn as [Hn _]. rewrite Hn in Hsz. injection Hsz as <-. lia.
Qed.









(** The example of the specification: size 10, three chunks, buffer 2
    gives the ranges [0,6), [2,10) and [6,10). *)
Example xr_split_ten_three_two :
  xr_split (line "x" 10) "x" 3 2
  = Ok [select_range (line "x" 10) "x" 0 6;
        select_range (line "x" 10) "x" 2 10;
        select_range (line "x" 10) "x" 6 10].
Proof. reflexivity. Qed.

(** On a one-dimensional variable the selection of a range is the
    sub-list of its values. *)
Example select_range_line :
  select_range (line "x" 10) "x" 2 6
  = [("x", Xr.mkVar ["x"] (Np.mk [4%nat] [2; 3; 4; 5]));
     ("a", Xr.mkVar ["x"] (Np.mk [4%nat] [102; 103; 104; 105]))].
Proof. reflexivity. Qed.

(** C1. Windowed round trip, at an input where it fails: one chunk and
    a buffer of 1 (below the chunk size 4).  [xr_split] yields the whole
    dataset; [xr_merge] trims it once as the first chunk and once as the
    last one and concatenates both copies, so six rows come back
    instead of four. *)
Theorem windowed_round_trip_single_chunk :
  (parts <- xr_split (line "x" 4) "x" 1 1 ;; xr_merge parts "x" 1)
  = Ok [("x", Xr.mkVar ["x"] (Np.mk [6%nat] [0; 1; 2; 1; 2; 3]));
        ("a", Xr.mkVar ["x"]
                (Np.mk [6%nat] [100; 101; 102; 101; 102; 103]))]
  /\ (parts <- xr_split (line "x" 4) "x" 1 1 ;; xr_merge parts "x" 1)
     <> Ok (line "x" 4).
Proof. split; [reflexivity | discriminate]. Qed.

(** The round trip also fails with several chunks when the range of a
    chunk is clipped at the end of the dimension: ten rows, three
    chunks of size 4, buffer 3.  The middle chunk [1,10) is trimmed to
    [4,7) and row 7 is lost. *)
Lemma windowed_round_trip_clipped_chunk :
  (parts <- xr_split (line "x" 10) "x" 3 3 ;; xr_merge parts "x" 3)
  = Ok [("x", Xr.mkVar ["x"] (Np.mk [9%nat] [0; 1; 2; 3; 4; 5; 6; 8; 9]));
        ("a", Xr.mkVar ["x"]
                (Np.mk [9%nat]
                       [100; 101; 102; 103; 104; 105; 106; 108; 109]))].
Proof. reflexivity. Qed.

(** The example of the specification does round-trip: ten rows, three
    chunks, buffer 2. *)
Example windowed_round_trip_ten_three_two :
  (parts <- xr_split (line "x" 10) "x" 3 2 ;; xr_merge parts "x" 2)
  = Ok (line "x" 10).
Proof. reflexivity. Qed.





(** The size is not always different from [n] either: with two rows and
    a buffer of 1 the single chunk merges to itself. *)
Example single_chunk_merge_same_size :
  xr_merge [line "x" 2] "x" 1 = Ok (line "x" 2).
Proof. reflexivity. Qed.



(** ** Validation on merge *)

(** C4, as stated, fails for [xr_merge]: a dataset split into three
    chunks, two of which are handed to [xr_merge].  The length 2 does
    not match the chunk count 3, and a dataset of 8 rows is returned.
    It also fails for [block_merge] where the product of the block
    counts does not fit [int64]: [7 * 7905747460161236407] is
    [3 * 2 ^ 64 + 1], which [np.prod] holds as 1, and a list of one
    array passes the check. *)
Lemma merge_length_counterexample :
  (exists c0 c1 c2 r,
      xr_split (line "x" 10) "x" 3 0 = Ok [c0; c1; c2]
      /\ xr_merge [c0; c1] "x" 0 = Ok r
      /\ Xr.sizes r "x" = Ok 8%nat)
  /\ Z.of_nat (length [a23]) <> fold_right Z.mul 1 [7; 7905747460161236407]
  /\ block_merge [a23] [7; 7905747460161236407] = Ok a23.
Proof.
  split; [do 4 eexists; repeat split|].
  split; [discriminate|]. vm_compute. reflexivity.
Qed.

(** C4, amended. [block_merge] raises its [ValueError] whenever the
    length of the list differs from the product of the block counts,
    for block counts whose product fits [int64] as they do themselves
    (the list being one of Python, of fewer than [2 ^ 63] arrays).
    [xr_merge] has no chunk count to compare with: it returns a dataset
    for every non-empty list made of chunks of one split, whatever the
    length of the list, and raises only on the empty list. *)
Theorem merge_length_validation :
  (forall (array_list : list Np.ndarray) (blocks : list Z),
      Forall (fun b => - 2 ^ 63 <= b < 2 ^ 63) blocks ->
      - 2 ^ 63 <= fold_right Z.mul 1 blocks < 2 ^ 63 ->
      Z.of_nat (length array_list) < 2 ^ 63 ->
      Z.of_nat (length array_list) <> fold_right Z.mul 1 blocks ->
      block_merge array_list blocks
      = Raise (ValueError "Length of array list must be equal to the product of the shape elements."))
  /\ (forall (ds : Xr.Dataset) (dim : string) (n : nat) (chunks buffer : Z)
             (parts l : list Xr.Dataset),
         dataset_ok ds -> dim_len ds dim n -> 1 <= chunks -> 0 <= buffer ->
         xr_split ds dim chunks buffer = Ok parts ->
         l <> [] -> (forall p, In p l -> In p parts) ->
         exists r, xr_merge l dim buffer = Ok r)
  /\ (forall (dim : string) (buffer : Z),
         exists e, xr_merge [] dim buffer = Raise e).
Proof.
  split; [|split].
  - intros array_list blocks _ Hprod Hlist Hlen. unfold block_merge, len.
    rewrite prod_int64_wrap, !wrap64_small by lia.
    destruct (Z.eqb_spec (Z.of_nat (length array_list))
                         (fold_right Z.mul 1 blocks)); [contradiction|].
    reflexivity.
  - intros ds dim n chunks buffer parts l Hok Hn Hc Hb Hsplit Hne Hincl.
    destruct (split_chunks ds dim n chunks buffer parts Hok Hn Hc Hb Hsplit)
      as [_ Hall].
    apply xr_merge_chunks with (base := ds); [assumption|assumption|].
    rewrite Forall_forall in Hall. apply Forall_forall.
    intros p Hp. apply Hall. now apply Hincl.
  - intros dim buffer. unfold xr_merge.
    destruct (0 <? buffer); eexists; reflexivity.
Qed.

Lemma merge_length_validation_witness :
  block_merge [a5] [2]
  = Raise (ValueError "Length of array list must be equal to the product of the shape elements.")
  /\ exists r,
      xr_merge [select_range (line "x" 10) "x" 0 4;
                select_range (line "x" 10) "x" 4 8] "x" 0 = Ok r.
Proof.
  split.
  - apply (proj1 merge_length_validation [a5] [2]).
    + constructor; [split; [discriminate | reflexivity] | constructor].
    + split; [discriminate | reflexivity].
    + reflexivity.
    + discriminate.
  - apply (proj1 (proj2 merge_length_validation)
                 (line "x" 10) "x" 10%nat 3 0
                 [select_range (line "x" 10) "x" 0 4;
                  select_range (line "x" 10) "x" 4 8;
                  select_range (line "x" 10) "x" 8 10]).
    + split.
      * repeat constructor; simpl; intuition discriminate.
      * repeat constructor.
    + split; [reflexivity|].
      repeat constructor; intros m H; vm_compute in H; congruence.
    + lia.
    + lia.
    + reflexivity.
    + discriminate.
    + intros p [<-|[<-|[]]]; simpl; auto.
Defined.

(** ** Dispatching *)

(** C5, at an input where it fails: the dimension ["x"] of [no_coord]
    has length 3 but no coordinate variable, so ["x" in ds] is false
    and the wrapper raises "The dataset has no dimension 'x'." although
    the dimension is present.  No task is created. *)
Theorem fail_fast_dimension_without_coordinate :
  Xr.sizes no_coord "x" = Ok 3%nat
  /\ In "x" (Xr.all_dims no_coord)
  /\ parallel 4 identity (Some "x") (Some 1) true 0 true no_coord 0%nat
     = (Raise (ValueError "The dataset has no dimension 'x'."), 0%nat).
Proof. repeat split. now left. Qed.

(** The same test lets through a name that is a variable but not a
    dimension: the error is then the [KeyError] of [ds.sizes], still
    before any task is created. *)
Lemma fail_fast_variable_not_dimension :
  ~ In "a" (Xr.all_dims no_coord)
  /\ parallel 4 identity (Some "a") (Some 1) true 0 true no_coord 0%nat
     = (Raise (KeyError "a"), 0%nat).
Proof.
  split; [|reflexivity]. simpl. intros [H|[]]. discriminate.
Qed.

Lemma mapM_raise {A B} (f : A -> res B) (l : list A) (e : exn) :
  mapM f l = Raise e -> exists x, In x l /\ f x = Raise e.
Proof.
  induction l as [|x l IH]; simpl; [discriminate|].
  destruct (f x) as [y|e'] eqn:Ex.
  - destruct (mapM f l) as [ys|e'']; [discriminate|].
    intros [= <-]. destruct (IH eq_refl) as (z & Hz & Hf).
    exists z. split; [now right | assumption].
  - intros [= <-]. exists x. split; [now left | assumption].
Qed.

Lemma sizes_raise (ds : Xr.Dataset) (dim : string) (e : exn) :
  Xr.sizes ds dim = Raise e -> e = KeyError dim.
Proof.
  induction ds as [|[k v] ds IH]; simpl.
  - now intros [= <-].
  - destruct (Xr.var_size v dim); [discriminate | exact IH].
Qed.

(** The exceptions [xr_split] can raise. *)
Lemma xr_split_raise (ds : Xr.Dataset) (dim : string) (chunks buffer : Z)
      (e : exn) :
  xr_split ds dim chunks buffer = Raise e ->
  e = KeyError dim \/ e = ZeroDivisionError
  \/ e = ValueError "dimensions do not exist"
  \/ e = IndexError "too many indices for array".
Proof.
  unfold xr_split. destruct (Xr.sizes ds dim) as [n|e0] eqn:Hsz; cbn [bind].
  2:{ intros [= <-]. left. now apply sizes_raise with (ds := ds). }
  unfold ceil_div. destruct (chunks =? 0); cbn [bind].
  { intros [= <-]. right. now left. }
  intros H. apply mapM_raise in H as (i & _ & H).
  unfold Xr.isel in H. rewrite Hsz in H.
  apply mapM_raise in H as (nv & _ & H). unfold Xr.isel_var in H.
  destruct (Xr.index_of dim (Xr.dims (snd nv))); [|discriminate].
  unfold Np.getitem_axis in H.
  destruct (nth_error _ _).
  - destruct (slice_indices _ _ _). discriminate.
  - cbn [bind] in H. injection H as <-. now do 3 right.
Qed.

(** What holds in general: when [dim not in ds] the wrapper raises its
    error and the engine is left as it was; when [dim in ds] the graph
    is built without that error being raised. *)
Lemma fail_fast (cpu_count : Z) (fn : Xr.Dataset -> res Xr.Dataset)
      (dim : string) (chunks : option Z) (merge : bool) (buffer : Z)
      (compute : bool) (ds : Xr.Dataset) (e : Engine) :
  (Xr.contains ds dim = false ->
   parallel cpu_count fn (Some dim) chunks merge buffer compute ds e
   = (Raise (no_dimension dim), e))
  /\ (Xr.contains ds dim = true ->
      fst (parallel cpu_count fn (Some dim) chunks merge buffer false ds e)
      <> Raise (no_dimension dim)).
Proof.
  split; intros Hin; unfold parallel.
  - now apply wrapper_fail_fast.
  - unfold wrapper. rewrite Hin. cbn [negb].
    set (c := match chunks with Some c => c | None => cpu_count end).
    unfold bindM at 1. unfold lift at 1.
    destruct (Xr.sizes ds dim) as [n|e0] eqn:Hsz.
    2:{ apply sizes_raise in Hsz as ->. discriminate. }
    unfold bindM at 1. unfold lift at 1.
    destruct (ceil_div (Z.of_nat n) c) as [cs|e0] eqn:Hcs.
    2:{ unfold ceil_div in Hcs. destruct (c =? 0); [|discriminate].
        injection Hcs as <-. discriminate. }
    unfold bindM at 1. unfold lift at 1. unfold Xr.chunk.
    destruct (xr_split ds dim c buffer) as [parts|e0] eqn:Hsplit.
    + unfold bindM at 1. rewrite mapMM_delayed_call.
      destruct merge; discriminate.
    + apply xr_split_raise in Hsplit as [-> | [-> | [-> | ->]]]; discriminate.
Qed.




(** End to end, as in the specification: one variable over ["lat"] of
    size 8, four chunks, no buffer and the identity transformation give
    the input back; five tasks are created. *)
Example end_to_end_identity :
  parallel 4 identity None (Some 4) true 0 true (line "lat" 8) 0%nat
  = (Ok (Materialized (One (line "lat" 8))), 5%nat).
Proof. reflexivity. Qed.


(** * Further properties *)

(** ** [chunks] *)

Lemma getslice_nat {A} (l : list A) (lo hi : Z) :
  0 <= lo -> lo <= hi ->
  getslice l (Some lo) (Some hi)
  = firstn (Z.to_nat (hi - lo)) (skipn (Z.to_nat lo) l).
Proof.
  intros Hlo Hhi. unfold getslice, slice_indices, clamp, take_range.
  destruct (Z.ltb_spec lo 0); [lia|]. destruct (Z.ltb_spec hi 0); [lia|].
  destruct (Z.le_gt_cases lo (Z.of_nat (length l))) as [Hin|Hout].
  - rewrite (Z.min_l lo) by lia.
    destruct (Z.le_gt_cases hi (Z.of_nat (length l))).
    + rewrite Z.min_l by lia. f_equal. lia.
    + rewrite Z.min_r by lia.
      rewrite !firstn_all2; try reflexivity; rewrite length_skipn; lia.
  - rewrite !(skipn_all2 l) by lia. now rewrite !firstn_nil.
Qed.

(** The chunks of a list are its consecutive runs of [n] elements. *)
Lemma chunks_eq {A} (l : list A) (n : Z) :
  0 < n ->
  chunks l n
  = Ok (Np.blocks_of (Z.to_nat (ceiling (Z.of_nat (length l)) n))
                     (Z.to_nat n) l).
Proof.
  intros Hn. unfold chunks, range3.
  destruct (Z.eqb_spec n 0); [lia|]. destruct (Z.ltb_spec 0 n); [|lia].
  cbn [bind]. f_equal. rewrite map_map. unfold Np.blocks_of, ceiling.
  replace (Z.of_nat (length l) - 0 + n - 1)
    with (Z.of_nat (length l) + n - 1) by lia.
  apply map_ext. intros j.
  rewrite getslice_nat by nia. f_equal; [lia|]. f_equal. nia.
Qed.

(** X1. For a positive size, [chunks] cuts the list into
    [ceil(len / n)] non-empty runs that concatenate to the list; every
    run but the last has exactly [n] elements. *)
Theorem chunks_partition {A} (l : list A) (n : Z) :
  0 < n ->
  exists cs,
    chunks l n = Ok cs
    /\ concat cs = l
    /\ Z.of_nat (length cs) = ceiling (Z.of_nat (length l)) n
    /\ forall j c,
         nth_error cs j = Some c ->
         c = firstn (Z.to_nat n) (skipn (j * Z.to_nat n) l)
         /\ 0 < Z.of_nat (length c) <= n
         /\ (S j < length cs -> Z.of_nat (length c) = n)%nat.
Proof.
  intros Hn. rewrite chunks_eq by assumption. eexists. split; [reflexivity|].
  pose proof (ceiling_bounds (Z.of_nat (length l)) n Hn) as Hc.
  set (k := ceiling (Z.of_nat (length l)) n) in *.
  assert (Hk : 0 <= k) by nia.
  split; [|split].
  - rewrite concat_blocks_of. apply firstn_all2. nia.
  - rewrite length_blocks_of. lia.
  - intros j c Hj. rewrite length_blocks_of.
    assert (Hlt : (j < Z.to_nat k)%nat).
    { rewrite <- (length_blocks_of (Z.to_nat k) (Z.to_nat n) l).
      apply nth_error_Some. congruence. }
    unfold Np.blocks_of in Hj. rewrite nth_error_map, nth_error_seq in Hj.
    destruct (Nat.ltb_spec j (Z.to_nat k)); [|lia].
    cbn in Hj. injection Hj as <-. split; [reflexivity|].
    rewrite length_firstn, length_skipn. split; [nia|]. intros Hlast. nia.
Qed.

Lemma chunks_partition_witness :
  exists cs,
    chunks [1; 2; 3; 4; 5] 2 = Ok cs
    /\ concat cs = [1; 2; 3; 4; 5]
    /\ Z.of_nat (length cs) = ceiling 5 2
    /\ forall j c,
         nth_error cs j = Some c ->
         c = firstn 2 (skipn (j * 2) [1; 2; 3; 4; 5])
         /\ 0 < Z.of_nat (length c) <= 2
         /\ ((S j < length cs)%nat -> Z.of_nat (length c) = 2).
Proof. apply (chunks_partition [1; 2; 3; 4; 5] 2). lia. Defined.

(** X2. A size of 0 makes [chunks] raise the [ValueError] of [range];
    a negative size yields no chunk at all, whatever the list. *)
Theorem chunks_nonpositive {A} (l : list A) (n : Z) :
  n <= 0 ->
  (n = 0 ->
   chunks l n = Raise (ValueError "range() arg 3 must not be zero"))
  /\ (n < 0 -> chunks l n = Ok []).
Proof.
  intros Hn. unfold chunks, range3. split; intros H.
  - subst n. reflexivity.
  - destruct (Z.eqb_spec n 0); [lia|]. destruct (Z.ltb_spec 0 n); [lia|].
    cbn [bind]. replace (Z.to_nat _) with 0%nat; [reflexivity|].
    assert (Hq : (0 - Z.of_nat (length l) - n - 1) / - n <= 0); [|lia].
    apply Z.lt_succ_r. apply Z.div_lt_upper_bound; lia.
Qed.

Lemma chunks_nonpositive_witness :
  (-2 = 0 ->
   chunks [1; 2; 3] (-2) = Raise (ValueError "range() arg 3 must not be zero"))
  /\ (-2 < 0 -> chunks [1; 2; 3] (-2) = Ok []).
Proof. apply (chunks_nonpositive [1; 2; 3] (-2)). lia. Defined.

(** ** [dict_product] *)

Lemma In_itertools_product {A} (ls : list (list A)) (x : list A) :
  In x (itertools_product ls) <-> Forall2 (fun v l => In v l) x ls.
Proof.
  revert x; induction ls as [|l ls IH]; intros x; simpl.
  - split.
    + intros [<-|[]]. constructor.
    + intros H. inversion H. now left.
  - rewrite in_flat_map. split.
    + intros (v & Hv & Hx). apply in_map_iff in Hx as (t & <- & Ht).
      constructor; [assumption|]. now apply IH.
    + intros H. inversion H as [|v l' t ls' Hv Ht]; subst.
      exists v. split; [assumption|]. apply in_map. now apply IH.
Qed.

Lemma length_itertools_product {A} (ls : list (list A)) :
  length (itertools_product ls)
  = fold_right (fun l acc => (length l * acc)%nat) 1%nat ls.
Proof.
  induction ls as [|l ls IH]; [reflexivity|]. simpl.
  rewrite <- IH. generalize (itertools_product ls) as P. intros P.
  induction l as [|v l IHl]; [reflexivity|].
  simpl. rewrite length_app, length_map, IHl. reflexivity.
Qed.

Lemma NoDup_itertools_product {A} (ls : list (list A)) :
  Forall (@NoDup A) ls -> NoDup (itertools_product ls).
Proof.
  induction 1 as [|l ls Hl _ IH]; simpl.
  - constructor; [intros []|constructor].
  - induction Hl as [|v l Hv _ IHl]; simpl; [constructor|].
    apply NoDup_app.
    + apply NoDup_map_NoDup_ForallPairs; [|assumption].
      intros a b _ _ [= ->]. reflexivity.
    + assumption.
    + intros t Ht Ht'. apply in_map_iff in Ht as (t0 & <- & _).
      apply in_flat_map in Ht' as (w & Hw & Ht').
      apply in_map_iff in Ht' as (t1 & [= <- _] & _). contradiction.
Qed.

Lemma map_fst_combine {A B} (l : list A) (m : list B) :
  length l = length m -> map fst (combine l m) = l.
Proof.
  revert m; induction l as [|x l IH]; intros [|y m] H; simpl in *;
    try discriminate; [reflexivity|].
  f_equal. apply IH. lia.
Qed.

Lemma map_snd_combine {A B} (l : list A) (m : list B) :
  length l = length m -> map snd (combine l m) = m.
Proof.
  revert m; induction l as [|x l IH]; intros [|y m] H; simpl in *;
    try discriminate; [reflexivity|].
  f_equal. apply IH. lia.
Qed.

Lemma combine_fst_snd {A B} (r : list (A * B)) :
  combine (map fst r) (map snd r) = r.
Proof.
  induction r as [|[a b] r IH]; [reflexivity|]. simpl. now rewrite IH.
Qed.

Lemma Forall2_map_snd {K A B} (R : A -> B -> Prop) (x : list A)
      (d : list (K * B)) :
  Forall2 R x (map snd d) <-> Forall2 (fun v kv => R v (snd kv)) x d.
Proof.
  revert x; induction d as [|kv d IH]; intros x; simpl.
  - split; intros H; inversion H; constructor.
  - split; intros H; inversion H; subst; constructor; auto; now apply IH.
Qed.

(** X3. The dictionaries [dict_product] yields are exactly those that
    have the keys of [d], in the order of [d], and map every key to one
    of the values [d] lists for it. *)
Theorem dict_product_spec {K V} (d : list (K * list V)) (r : list (K * V)) :
  In r (dict_product d)
  <-> map fst r = map fst d
      /\ Forall2 (fun v kv => In v (snd kv)) (map snd r) d.
Proof.
  unfold dict_product. rewrite in_map_iff. split.
  - intros (x & <- & Hx). apply In_itertools_product in Hx.
    assert (Hlen : length (map fst d) = length x).
    { apply Forall2_length in Hx. now rewrite !length_map in *. }
    rewrite map_fst_combine, map_snd_combine by assumption.
    split; [reflexivity|]. now apply Forall2_map_snd.
  - intros [Hk Hv]. exists (map snd r). split.
    + rewrite <- Hk. apply combine_fst_snd.
    + apply In_itertools_product. now apply Forall2_map_snd.
Qed.

(** X4. [dict_product] yields as many dictionaries as the product of
    the numbers of values per key, and yields none twice when no key
    lists a value twice. *)
Theorem dict_product_count {K V} (d : list (K * list V)) :
  length (dict_product d)
  = fold_right (fun kv acc => (length (snd kv) * acc)%nat) 1%nat d
  /\ (Forall (fun kv => NoDup (snd kv)) d -> NoDup (dict_product d)).
Proof.
  unfold dict_product. split.
  - rewrite length_map, length_itertools_product.
    induction d as [|kv d IH]; [reflexivity|]. simpl. now rewrite IH.
  - intros Hnd. apply NoDup_map_NoDup_ForallPairs.
    + intros x y Hx Hy Heq.
      apply In_itertools_product, Forall2_length in Hx.
      apply In_itertools_product, Forall2_length in Hy.
      rewrite length_map in Hx, Hy.
      rewrite <- (map_snd_combine (map fst d) x),
              <- (map_snd_combine (map fst d) y), Heq;
        rewrite ?length_map; congruence.
    + apply NoDup_itertools_product. apply Forall_map.
      exact Hnd.
Qed.

Lemma dict_product_count_witness :
  length (dict_product [("a", [1; 2]); ("b", [3; 4; 5])]) = 6%nat
  /\ (Forall (fun kv => NoDup (snd kv)) [("a", [1; 2]); ("b", [3; 4; 5])] ->
      NoDup (dict_product [("a", [1; 2]); ("b", [3; 4; 5])])).
Proof. apply (dict_product_count [("a", [1; 2]); ("b", [3; 4; 5])]). Defined.

(** The order of the dictionaries: the last key varies fastest. *)
Example dict_product_order :
  dict_product [("a", [1; 2]); ("b", [3; 4])]
  = [[("a", 1); ("b", 3)]; [("a", 1); ("b", 4)];
     [("a", 2); ("b", 3)]; [("a", 2); ("b", 4)]].
Proof. reflexivity. Qed.

(** ** [select] *)

Lemma find_hd_filter {A} (f : A -> bool) (l : list A) :
  find f l = hd_error (filter f l).
Proof.
  induction l as [|x l IH]; [reflexivity|]. simpl.
  destruct (f x); [reflexivity | exact IH].
Qed.

(** X5. With [first] set, [select] returns the first object of a list
    that satisfies [fn], or the value of the first item of a dictionary
    whose value satisfies [fn], and [None] when there is none;
    [unlist] plays no role. *)
Theorem select_first {K A} (fn : A -> bool) (unlist : bool)
        (l : list A) (d : list (K * A)) :
  select (@AList K A l) fn unlist true
  = match find fn l with Some a => SItem a | None => SNone end
  /\ select (ADict d) fn unlist true
     = match find (fun kv => fn (snd kv)) d with
       | Some kv => SItem (snd kv)
       | None => SNone
       end.
Proof.
  unfold select. rewrite !find_hd_filter. split.
  - cbn [coll_len]. destruct (filter fn l); reflexivity.
  - cbn [coll_len]. destruct (filter _ d) as [|[k a] r]; reflexivity.
Qed.

(** X6. Whatever the flags, an object [select] returns out of a list
    or a dictionary belongs to it and satisfies [fn]; and with [unlist]
    set, a list is never returned with exactly one element. *)
Theorem select_sound {K A} (fn : A -> bool) (unlist first : bool)
        (l : list A) (d : list (K * A)) (a : A) :
  (select (@AList K A l) fn unlist first = SItem a ->
   In a l /\ fn a = true)
  /\ (select (ADict d) fn unlist first = SItem a ->
      (exists k, In (k, a) d) /\ fn a = true)
  /\ select (@AList K A l) fn true first <> SColl (AList [a]).
Proof.
  unfold select. cbn [coll_len]. split; [|split].
  - destruct (filter fn l) as [|x r] eqn:E.
    + destruct first; [discriminate|]. discriminate.
    + assert (Hx : In x l /\ fn x = true).
      { apply filter_In. rewrite E. now left. }
      destruct first; cbn [length Nat.eqb].
      * now intros [= <-].
      * destruct r; [|discriminate]. destruct unlist; [|discriminate].
        now intros [= <-].
  - destruct (filter _ d) as [|[k x] r] eqn:E.
    + destruct first; discriminate.
    + assert (Hx : In (k, x) d /\ fn x = true).
      { apply (filter_In (fun kv => fn (snd kv)) (k, x) d).
        rewrite E. now left. }
      destruct first; cbn [length Nat.eqb]; [|discriminate].
      intros [= <-]. split; [now exists k | apply Hx].
  - destruct (filter fn l) as [|x [|y r]]; destruct first; cbn; discriminate.
Qed.

(** ** [get_vars_for_dims] *)

Lemma issuperset_incl (s t : list string) :
  issuperset s t = true <-> incl t s.
Proof.
  unfold issuperset, incl. rewrite forallb_forall. split; intros H x Hx.
  - specialize (H x Hx). apply existsb_exists in H as (y & Hy & E).
    apply String.eqb_eq in E. now subst.
  - apply existsb_exists. exists x. split; [now apply H|].
    apply String.eqb_refl.
Qed.

(** X7. [get_vars_for_dims] returns exactly the names of the data
    variables whose dimensions include all of [dims], each once and in
    the order of the dataset: the list of names with those of the
    other variables struck out.  [dims] counts as a set, so order and
    repetitions in it do not matter. *)
Theorem get_vars_for_dims_spec (data_vars : Xr.Dataset) (dims : list string) :
  get_vars_for_dims data_vars dims
  = map fst
      (filter (fun nv =>
                 if ListDec.incl_dec string_dec dims (Xr.dims (snd nv))
                 then true else false)
              data_vars)
  /\ (forall name,
         In name (get_vars_for_dims data_vars dims)
         <-> exists v, In (name, v) data_vars /\ incl dims (Xr.dims v))
  /\ (forall dims',
         (forall x, In x dims <-> In x dims') ->
         get_vars_for_dims data_vars dims'
         = get_vars_for_dims data_vars dims).
Proof.
  unfold get_vars_for_dims. split; [|split].
  - f_equal. apply filter_ext. intros nv.
    destruct (ListDec.incl_dec string_dec dims (Xr.dims (snd nv))) as [H|H].
    + now apply issuperset_incl.
    + destruct (issuperset (Xr.dims (snd nv)) dims) eqn:E; [|reflexivity].
      exfalso. apply H. now apply issuperset_incl.
  - intros name. rewrite in_map_iff. split.
    + intros ([k v] & <- & H). apply filter_In in H as [Hin Hs].
      exists v. split; [assumption|]. now apply issuperset_incl.
    + intros (v & Hin & Hs). exists (name, v). split; [reflexivity|].
      apply filter_In. split; [assumption|]. now apply issuperset_incl.
  - intros dims' Hsame. f_equal. apply filter_ext. intros nv.
    apply eq_true_iff_eq. rewrite !issuperset_incl. unfold incl.
    split; intros H x Hx; apply H; now apply Hsame.
Qed.

(** ** [array_chunks] *)

Lemma firstn_repeat {A} (x : A) (k r : nat) :
  firstn k (repeat x r) = repeat x (Nat.min k r).
Proof.
  revert r; induction k as [|k IH]; intros [|r]; simpl; try reflexivity.
  now rewrite IH.
Qed.

Lemma skipn_repeat {A} (x : A) (k r : nat) :
  skipn k (repeat x r) = repeat x (r - k).
Proof.
  revert r; induction k as [|k IH]; intros [|r]; simpl; try reflexivity.
  apply IH.
Qed.

Lemma setitem_full (r ax : nat) (v : option Z * option Z) :
  (ax < r)%nat ->
  setitem (repeat (None, None) r) (Z.of_nat ax) v
  = Ok (repeat (None, None) ax ++ v :: repeat (None, None) (r - S ax))%list.
Proof.
  intros H. unfold setitem. rewrite repeat_length.
  destruct (Z.ltb_spec (Z.of_nat ax) 0); [lia|].
  destruct (Z.ltb_spec (Z.of_nat ax) 0); [lia|].
  destruct (Z.leb_spec (Z.of_nat r) (Z.of_nat ax)); [lia|].
  cbn [orb]. rewrite Nat2Z.id, firstn_repeat, skipn_repeat.
  now rewrite Nat.min_l by lia.
Qed.

Lemma shape_getitem_nat (shape : list nat) (ax : nat) :
  (ax < length shape)%nat ->
  shape_getitem shape (Z.of_nat ax) = Ok (Np.axis_len ax shape).
Proof.
  intros H. unfold shape_getitem.
  destruct (Z.ltb_spec (Z.of_nat ax) 0); [lia|].
  destruct (Z.ltb_spec (Z.of_nat ax) 0); [lia|].
  now rewrite Nat2Z.id, (axis_len_nth_error ax).
Qed.

(** X8. For a positive size [n] and an axis of the array,
    [array_chunks] yields no chunk at all: on an axis that is not empty
    the first chunk is indexed with a list of slices, which raises an
    [IndexError], and on an empty axis there is nothing to yield. *)
Theorem array_chunks_list_index (a : Np.ndarray) (n : Z) (ax : nat)
        (return_indices : bool) :
  (ax < Np.ndim a)%nat -> 0 < n ->
  let len := Np.axis_len ax (Np.shape a) in
  ((0 < len)%nat ->
   exists msg,
     array_chunks a n (Z.of_nat ax) return_indices = Raise (IndexError msg))
  /\ (len = 0%nat ->
      array_chunks a n (Z.of_nat ax) return_indices = Ok []).
Proof.
  intros Hax Hn len. unfold array_chunks.
  destruct (Z.leb_spec (Z.of_nat (Np.ndim a)) (Z.of_nat ax)); [lia|].
  rewrite shape_getitem_nat by exact Hax. fold len. cbn [bind].
  unfold range3.
  destruct (Z.eqb_spec n 0); [lia|]. destruct (Z.ltb_spec 0 n); [|lia].
  cbn [bind]. split; intros Hlen.
  - pose proof (ceiling_bounds (Z.of_nat len) n Hn) as Hc.
    unfold ceiling in Hc.
    replace (Z.of_nat len - 0 + n - 1) with (Z.of_nat len + n - 1) by lia.
    destruct (Z.to_nat ((Z.of_nat len + n - 1) / n)) as [|c] eqn:Ec; [nia|].
    cbn [seq map mapM]. rewrite setitem_full by exact Hax. cbn [bind].
    destruct (repeat (None, None) ax); eexists; reflexivity.
  - rewrite Hlen. replace (Z.of_nat 0 - 0 + n - 1) with (n - 1) by lia.
    rewrite Z.div_small by lia. reflexivity.
Qed.

Lemma array_chunks_list_index_witness :
  (exists msg, array_chunks a23 2 1 false = Raise (IndexError msg))
  /\ array_chunks (Np.mk [2; 0]%nat []) 2 1 false = Ok [].
Proof.
  split.
  - apply (array_chunks_list_index a23 2 1 false); [cbn; lia | lia | cbn; lia].
  - apply (array_chunks_list_index (Np.mk [2; 0]%nat []) 2 1 false);
      [cbn; lia | lia | reflexivity].
Defined.

Lemma shape_getitem_negative (shape : list nat) (i : Z) :
  - Z.of_nat (length shape) <= i < 0 ->
  shape_getitem shape i = shape_getitem shape (i + Z.of_nat (length shape)).
Proof.
  intros H. unfold shape_getitem.
  assert (E1 : (i <? 0) = true) by (apply Z.ltb_lt; lia).
  assert (E2 : (i + Z.of_nat (length shape) <? 0) = false)
    by (apply Z.ltb_ge; lia).
  repeat first [rewrite E1 | rewrite E2 | progress cbv iota].
  reflexivity.
Qed.

Lemma setitem_negative {A} (l : list A) (i : Z) (v : A) :
  - Z.of_nat (length l) <= i < 0 ->
  setitem l i v = setitem l (i + Z.of_nat (length l)) v.
Proof.
  intros H. unfold setitem.
  assert (E1 : (i <? 0) = true) by (apply Z.ltb_lt; lia).
  assert (E2 : (i + Z.of_nat (length l) <? 0) = false)
    by (apply Z.ltb_ge; lia).
  repeat first [rewrite E1 | rewrite E2 | progress cbv iota].
  reflexivity.
Qed.

Lemma mapM_ext {A B} (f g : A -> res B) (l : list A) :
  (forall x, f x = g x) -> mapM f l = mapM g l.
Proof.
  intros H. induction l as [|x l IH]; [reflexivity|].
  simpl. now rewrite H, IH.
Qed.

(** X9. The axis of [array_chunks]: an axis at or above the rank
    raises the [ValueError] of the function, an axis below minus the
    rank raises an [IndexError], and a negative axis in between counts
    from the last axis. *)
Theorem array_chunks_axis_range (a : Np.ndarray) (n axis : Z)
        (return_indices : bool) :
  let ndim := Z.of_nat (Np.ndim a) in
  (ndim <= axis ->
   array_chunks a n axis return_indices = Raise (axis_out_of_range axis))
  /\ (axis < - ndim ->
      array_chunks a n axis return_indices
      = Raise (IndexError "tuple index out of range"))
  /\ (- ndim <= axis < 0 ->
      array_chunks a n axis return_indices
      = array_chunks a n (axis + ndim) return_indices).
Proof.
  intros ndim. unfold array_chunks. fold ndim. split; [|split]; intros H.
  - destruct (Z.leb_spec ndim axis); [reflexivity | lia].
  - destruct (Z.leb_spec ndim axis); [lia|]. unfold shape_getitem.
    destruct (Z.ltb_spec axis 0); [|lia].
    change (Z.of_nat (length (Np.shape a))) with ndim.
    destruct (Z.ltb_spec (axis + ndim) 0); [reflexivity | lia].
  - destruct (Z.leb_spec ndim axis); [lia|].
    destruct (Z.leb_spec ndim (axis + ndim)); [lia|].
    rewrite (shape_getitem_negative (Np.shape a) axis) by exact H.
    change (Z.of_nat (length (Np.shape a))) with ndim.
    destruct (shape_getitem _ _); [|reflexivity]. cbn [bind].
    destruct (range3 _ _ _); [|reflexivity]. cbn [bind].
    apply mapM_ext. intros i.
    rewrite (setitem_negative _ axis)
      by (rewrite repeat_length; exact H).
    now rewrite repeat_length.
Qed.

(** ** [xygrid] *)

Lemma length_range_nat (stop : Z) : length (range stop) = Z.to_nat stop.
Proof. unfold range. now rewrite length_map, length_seq. Qed.

Lemma nth_error_range_nat (stop : Z) (j : nat) :
  (j < Z.to_nat stop)%nat -> nth_error (range stop) j = Some (Z.of_nat j).
Proof.
  intros H. unfold range. rewrite nth_error_map, nth_error_seq.
  destruct (Nat.ltb_spec j (Z.to_nat stop)); [reflexivity | lia].
Qed.

(** X10. [xygrid(ncols, nrows)] returns two well-formed arrays of shape
    [(ncols, nrows)]; at position [(i, j)] the first holds the second
    index [j] and the second holds the first index [i]. *)
Theorem xygrid_values (ncols nrows : Z) (i j : nat) :
  (i < Z.to_nat ncols)%nat -> (j < Z.to_nat nrows)%nat ->
  let X := fst (xygrid ncols nrows) in
  let Y := snd (xygrid ncols nrows) in
  Np.shape X = [Z.to_nat ncols; Z.to_nat nrows]
  /\ Np.shape Y = [Z.to_nat ncols; Z.to_nat nrows]
  /\ Np.wf X /\ Np.wf Y
  /\ item X [i; j] = Some (Z.of_nat j)
  /\ item Y [i; j] = Some (Z.of_nat i).
Proof.
  intros Hi Hj X Y. subst X Y. unfold xygrid, meshgrid, item, Np.wf.
  cbn [fst snd Np.shape Np.data]. rewrite !length_range_nat.
  set (c := Z.to_nat ncols) in *. set (r := Z.to_nat nrows) in *.
  assert (HX : Forall (fun b => length b = r) (repeat (range nrows) c)).
  { apply Forall_forall. intros b Hb. apply repeat_spec in Hb. subst b.
    apply length_range_nat. }
  assert (HY : Forall (fun b => length b = r)
                      (map (fun v => repeat v r) (range ncols))).
  { apply Forall_map, Forall_forall. intros v _. apply repeat_length. }
  rewrite flat_map_concat_map.
  split; [reflexivity|]. split; [reflexivity|]. split; [|split; [|split]].
  - rewrite (length_concat_uniform r) by assumption.
    rewrite repeat_length. simpl. lia.
  - rewrite (length_concat_uniform r) by assumption.
    rewrite length_map, length_range_nat. simpl. lia.
  - change (ravel [c; r] [i; j]) with ((0 * c + i) * r + j)%nat.
    rewrite Nat.mul_0_l, Nat.add_0_l.
    rewrite (nth_error_concat_uniform r) by assumption.
    rewrite nth_repeat_lt by assumption.
    now apply nth_error_range_nat.
  - change (ravel [c; r] [i; j]) with ((0 * c + i) * r + j)%nat.
    rewrite Nat.mul_0_l, Nat.add_0_l.
    rewrite (nth_error_concat_uniform r) by assumption.
    rewrite (nth_indep _ [] ((fun v => repeat v r) 0))
      by (rewrite length_map, length_range_nat; assumption).
    rewrite (map_nth (fun v => repeat v r)).
    rewrite nth_error_repeat by assumption. f_equal.
    apply nth_error_nth. now apply nth_error_range_nat.
Qed.

Lemma xygrid_values_witness :
  Np.shape (fst (xygrid 2 3)) = [2; 3]%nat
  /\ Np.shape (snd (xygrid 2 3)) = [2; 3]%nat
  /\ Np.wf (fst (xygrid 2 3)) /\ Np.wf (snd (xygrid 2 3))
  /\ item (fst (xygrid 2 3)) [1; 2]%nat = Some 2
  /\ item (snd (xygrid 2 3)) [1; 2]%nat = Some 1.
Proof. apply (xygrid_values 2 3 1 2); cbn; lia. Defined.

(** The two grids for two columns and three rows. *)
Example xygrid_two_three :
  xygrid 2 3 = (Np.mk [2; 3]%nat [0; 1; 2; 0; 1; 2],
                Np.mk [2; 3]%nat [0; 0; 0; 1; 1; 1]).
Proof. reflexivity. Qed.

(** ** [block_split]: block counts of one and below *)

Lemma enumerate_app {A} (l1 l2 : list A) :
  enumerate (l1 ++ l2)
  = (enumerate l1 ++ combine (seq (length l1) (length l2)) l2)%list.
Proof.
  unfold enumerate. rewrite length_app, seq_app.
  now rewrite combine_append by now rewrite length_seq.
Qed.

Lemma first_nonpositive (l : list Z) :
  Exists (fun b => b <= 0) l ->
  exists pre x post,
    l = (pre ++ x :: post)%list /\ Forall (fun b => 1 <= b) pre /\ x <= 0.
Proof.
  induction l as [|b l IH]; intros H; [inversion H|].
  destruct (Z.le_gt_cases b 0) as [Hb|Hb].
  - exists [], b, l. repeat split; [constructor | assumption].
  - inversion H as [? ? Hb'|? ? Hl]; subst; [lia|].
    destruct (IH Hl) as (pre & x & post & -> & Hpre & Hx).
    exists (b :: pre), x, post. repeat split; [|assumption].
    constructor; [lia | assumption].
Qed.

Lemma prod_blocks_pos (bs : list Z) :
  Forall (fun b => 1 <= b) bs -> 1 <= fold_right Z.mul 1 bs.
Proof.
  induction 1 as [|b bs Hb _ IH]; cbn [fold_right]; [lia | nia].
Qed.

(** X11. [block_split] raises the [ValueError] of [np.array_split] as
    soon as one of the block counts is zero or negative. *)
Theorem block_split_nonpositive (a : Np.ndarray) (blocks : list Z) :
  Np.wf a -> length blocks = Np.ndim a ->
  Exists (fun b => b <= 0) blocks ->
  block_split a blocks
  = Raise (ValueError "number sections must be larger than 0.").
Proof.
  intros Hwf Hlen Hex.
  destruct (first_nonpositive blocks Hex) as (pre & x & post & -> & Hpre & Hx).
  unfold block_split. rewrite Hlen, Nat.eqb_refl. cbn [negb].
  rewrite length_app in Hlen. cbn [length] in Hlen.
  destruct (split_loop_ok a pre Hwf Hpre ltac:(lia))
    as (R & HR & Hcount & Hall & _).
  rewrite enumerate_app, foldM_app, HR. cbn [bind length].
  rewrite <- cons_seq. cbn [combine foldM].
  pose proof (prod_blocks_pos pre Hpre) as Hpos.
  destruct R as [|r R]; [simpl in Hcount; lia|].
  inversion Hall as [|? ? (_ & Hnd & _) _]; subst.
  unfold block_split_step. cbn [mapM]. unfold Np.array_split at 1.
  unfold Np.ndim in Hnd, Hlen.
  rewrite (axis_len_nth_error (length pre)) by lia.
  destruct (Z.leb_spec x 0); [reflexivity | lia].
Qed.

Lemma block_split_nonpositive_witness :
  block_split a23 [2; 0]
  = Raise (ValueError "number sections must be larger than 0.").
Proof.
  apply (block_split_nonpositive a23 [2; 0]).
  - reflexivity.
  - reflexivity.
  - right. left. lia.
Defined.

Lemma part_offset_one (n : nat) :
  part_offset n 1 0 = 0%nat /\ part_offset n 1 1 = n.
Proof.
  unfold part_offset. rewrite Nat.div_1_r, Nat.mod_1_r. split; lia.
Qed.

Lemma split_by_one (p start : nat) (a : Np.ndarray) :
  Np.wf a -> (start + p <= Np.ndim a)%nat ->
  foldM block_split_step (combine (seq start p) (repeat 1 p)) [a] = Ok [a].
Proof.
  revert start; induction p as [|p IH]; intros start Hwf Hp; [reflexivity|].
  cbn [seq repeat combine foldM]. unfold block_split_step at 1.
  cbn [mapM]. rewrite array_split_eq by lia.
  change (Z.to_nat 1) with 1%nat. cbn [seq map bind concat app].
  destruct (part_offset_one (Np.axis_len start (Np.shape a))) as [-> ->].
  rewrite slice_axis_full by (assumption || lia).
  apply IH; [assumption | lia].
Qed.

(** X12. With a block count of 1 on every axis, [block_split] returns
    the array itself as its only block. *)
Theorem block_split_ones (a : Np.ndarray) :
  Np.wf a -> block_split a (repeat 1 (Np.ndim a)) = Ok [a].
Proof.
  intros Hwf. unfold block_split, enumerate.
  rewrite repeat_length, Nat.eqb_refl. cbn [negb].
  apply split_by_one; [assumption | lia].
Qed.

Lemma block_split_ones_witness :
  block_split a44 (repeat 1 (Np.ndim a44)) = Ok [a44].
Proof. apply (block_split_ones a44). reflexivity. Defined.

(** ** [xr_split] and [xr_merge] with a buffer *)












(** X14. Chunk counts of zero and below: with zero chunks [xr_split]
    fails on the division that computes the chunk size, and with a
    negative count it yields nothing. *)
Theorem xr_split_nonpositive_chunks (ds : Xr.Dataset) (dim : string)
        (n : nat) (chunks buffer : Z) :
  Xr.sizes ds dim = Ok n -> chunks <= 0 ->
  xr_split ds dim chunks buffer
  = if chunks =? 0 then Raise ZeroDivisionError else Ok [].
Proof.
  intros Hsz Hc. unfold xr_split, ceil_div. rewrite Hsz. cbn [bind].
  destruct (Z.eqb_spec chunks 0); [reflexivity|]. cbn [bind].
  unfold range. now replace (Z.to_nat chunks) with 0%nat by lia.
Qed.

Lemma xr_split_nonpositive_chunks_witness :
  xr_split (line "x" 10) "x" (-2) 1 = Ok []
  /\ xr_split (line "x" 10) "x" 0 1 = Raise ZeroDivisionError.
Proof.
  split.
  - apply (xr_split_nonpositive_chunks (line "x" 10) "x" 10 (-2) 1);
      [reflexivity | lia].
  - apply (xr_split_nonpositive_chunks (line "x" 10) "x" 10 0 1);
      [reflexivity | lia].
Defined.

(** ** [parallel] with [compute=True] *)








